(** * HOLO-EARTH: the gesture-to-rotation pipeline and the pick-to-geo transform

    A shallow embedding of
    - [HandTracker.predictWebcam] (components/HandTracker.tsx): pinch
      classification and pointer smoothing, one call per animation frame;
    - [RealisticEarth.useFrame], [RealisticEarth.handlePointerDown] and the
      position handed to [LocationMarker] (components/HoloEarth.tsx): drag
      tracking, globe rotation, picking and marker placement.

    JavaScript numbers are modelled as real numbers: [+], [-], [*], [/],
    [Math.sqrt], [Math.pow], [Math.sin], [Math.cos], [Math.acos] and
    [Math.atan2] are the exact operations, so rounding, infinities and NaN are
    outside the model.  React refs are modelled by explicit state passing: each
    callback takes the current value of the refs it reads and returns the
    values it leaves behind. *)

From Stdlib Require Import Reals Lra List Bool String.
Import ListNotations.

Open Scope R_scope.

(** ** JavaScript builtins *)

Module Js.

(** [a < b] as a JavaScript boolean. *)
Definition ltb (a b : R) : bool := if Rlt_dec a b then true else false.

(** [a > b]. *)
Definition gtb (a b : R) : bool := ltb b a.

(** [a !== b] on numbers. *)
Definition neqb (a b : R) : bool := if Req_dec_T a b then false else true.

(** [a || b] on numbers: [b] when [a] is zero. *)
Definition or_num (a b : R) : R := if Req_dec_T a 0 then b else a.

(** [Math.atan2(y, x)], by the cases of ECMA-262 (21.3.2.8): the angle of the
    point [(x, y)] in (-PI, PI], and [0] at the origin. *)
Definition atan2 (y x : R) : R :=
  if Rlt_dec 0 x then atan (y / x)
  else if Rlt_dec x 0 then
    if Rle_dec 0 y then atan (y / x) + PI else atan (y / x) - PI
  else if Rlt_dec 0 y then PI / 2
  else if Rlt_dec y 0 then - (PI / 2)
  else 0.

End Js.

(** ** types.ts *)

(** [HandLandmark]: a tracked point in normalised image coordinates. *)
Record HandLandmark : Type := mkLandmark { lm_x : R; lm_y : R; lm_z : R }.

(** [LocationData]: a picked coordinate, in degrees. *)
Record LocationData : Type := mkLocation { lat : R; lon : R }.

(** The object type [{x: number, y: number}] of [prevHand] and [lastHandPos]. *)
Record Point2 : Type := mkPoint2 { px : R; py : R }.

(** [HandData] (exported by HandTracker.tsx): the shared pointer state. *)
Record HandData : Type := mkHandData { hd_x : R; hd_y : R; hd_active : bool }.

(** ** components/HoloEarth.tsx *)

Module HoloEarth.

(** [THREE.Euler]: [rotation.x] is the pitch and [rotation.y] the yaw. *)
Record Euler : Type := mkEuler { rot_x : R; rot_y : R; rot_z : R }.

(** [THREE.Vector3]. *)
Record Vector3 : Type := mkVector3 { vx : R; vy : R; vz : R }.

(** The refs [useFrame] reads and writes: the rotation of the object behind
    [earthRef] and [cloudsRef] ([None] while the ref is still null) and
    [lastHandPos]. *)
Record Scene : Type := mkScene {
  earthRef : option Euler;
  cloudsRef : option Euler;
  lastHandPos : option Point2
}.

(** [rotation.y += d]. *)
Definition add_y (d : R) (e : Euler) : Euler :=
  mkEuler (rot_x e) (rot_y e + d) (rot_z e).

(** [rotation.x += d]. *)
Definition add_x (d : R) (e : Euler) : Euler :=
  mkEuler (rot_x e + d) (rot_y e) (rot_z e).

(** The callback given to [useFrame]; [delta] is the time since the last
    rendered frame. *)
Definition useFrame (handData : HandData) (selectedLocation : option LocationData)
    (delta : R) (s : Scene) : Scene :=
  match earthRef s with
  | None => s
  | Some earth =>
      (* cloud animation *)
      let clouds := option_map (add_y (delta * 0.02)) (cloudsRef s) in
      if hd_active handData then
        match lastHandPos s with
        | None =>
            (* first frame of a grab: store the position, do not move yet *)
            mkScene (Some earth) clouds
                    (Some (mkPoint2 (hd_x handData) (hd_y handData)))
        | Some last =>
            let deltaX := hd_x handData - px last in
            let deltaY := hd_y handData - py last in
            mkScene (Some (add_x (deltaY * 10) (add_y (deltaX * 10) earth)))
                    clouds
                    (Some (mkPoint2 (hd_x handData) (hd_y handData)))
        end
      else
        (* reset the drag state, then idle auto rotation *)
        let earth' :=
          match selectedLocation with
          | None => add_y (delta * 0.05) earth
          | Some _ => earth
          end in
        mkScene (Some earth') clouds None
  end.

(** One rendered frame: the arguments [useFrame]'s callback sees. *)
Record Tick : Type := mkTick {
  tk_hand : HandData;
  tk_selected : option LocationData;
  tk_delta : R
}.

Definition step (s : Scene) (t : Tick) : Scene :=
  useFrame (tk_hand t) (tk_selected t) (tk_delta t) s.

(** The scene after each of the frames [ts], in order. *)
Fixpoint scenes (s : Scene) (ts : list Tick) : list Scene :=
  match ts with
  | [] => []
  | t :: ts' => step s t :: scenes (step s t) ts'
  end.

(** The drag delta a frame applied to the globe, read back from its effect:
    none on a frame whose hand is not active, otherwise the yaw and pitch the
    frame added, over the sensitivity 10. *)
Definition appliedDelta (handData : HandData) (before after : Scene)
  : option (R * R) :=
  if hd_active handData then
    match earthRef before, earthRef after with
    | Some e, Some e' =>
        Some ((rot_y e' - rot_y e) / 10, (rot_x e' - rot_x e) / 10)
    | _, _ => None
    end
  else None.

(** The deltas of the frames [ts], in order. *)
Fixpoint deltas (s : Scene) (ts : list Tick) : list (option (R * R)) :=
  match ts with
  | [] => []
  | t :: ts' => appliedDelta (tk_hand t) s (step s t) :: deltas (step s t) ts'
  end.

(** [Vector3.length()]. *)
Definition length (v : Vector3) : R :=
  sqrt (vx v * vx v + vy v * vy v + vz v * vz v).

(** [Vector3.multiplyScalar(k)]. *)
Definition multiplyScalar (k : R) (v : Vector3) : Vector3 :=
  mkVector3 (vx v * k) (vy v * k) (vz v * k).

(** [Vector3.divideScalar(k)], which three.js computes as
    [multiplyScalar(1 / k)]. *)
Definition divideScalar (k : R) (v : Vector3) : Vector3 :=
  multiplyScalar (1 / k) v.

(** [Vector3.normalize()], which three.js computes as
    [divideScalar(length() || 1)]: the zero vector stays the zero vector. *)
Definition normalize (v : Vector3) : Vector3 :=
  divideScalar (Js.or_num (length v) 1) v.

(** Lines 107 to 115 of [handlePointerDown]: latitude and longitude, in
    degrees, of a point given in the globe's own frame. *)
Definition geoOfLocal (localPoint : Vector3) : R * R :=
  let localPoint := normalize localPoint in
  let phi := acos (vy localPoint) in
  let theta := Js.atan2 (vx localPoint) (vz localPoint) in
  let lat := 90 - (phi * 180 / PI) in
  let lon := theta * 180 / PI in
  (lat, lon).

Section Pick.

(** [Object3D.worldToLocal] of the globe's group: the inverse of its world
    transform, which depends on the scene graph and is left abstract. *)
Variable worldToLocal : Euler -> Vector3 -> Vector3.

(** [handlePointerDown] on an event whose [point] is [point]: the arguments
    of the call [onLocationSelect(lat, lon)], or [None] when no call is made. *)
Definition handlePointerDown (s : Scene) (point : Vector3) : option (R * R) :=
  match earthRef s with
  | Some earth => Some (geoOfLocal (worldToLocal earth point))
  | None => None
  end.

End Pick.

(** The [position] handed to [LocationMarker] for [selectedLocation]. *)
Definition markerPosition (selectedLocation : LocationData) : Vector3 :=
  mkVector3
    (2.02 * sin ((90 - lat selectedLocation) * PI / 180)
          * sin (lon selectedLocation * PI / 180))
    (2.02 * cos ((90 - lat selectedLocation) * PI / 180))
    (2.02 * sin ((90 - lat selectedLocation) * PI / 180)
          * cos (lon selectedLocation * PI / 180)).

(** The scene after the frames [ts]. *)
Definition run (s : Scene) (ts : list Tick) : Scene := fold_left step ts s.

(** The time the frames [ts] span: the sum of their [delta]. *)
Fixpoint totalTime (ts : list Tick) : R :=
  match ts with
  | [] => 0
  | t :: ts' => tk_delta t + totalTime ts'
  end.

(** The pointer of the last frame of [ts], or [p] when there is none. *)
Fixpoint lastPointer (p : Point2) (ts : list Tick) : Point2 :=
  match ts with
  | [] => p
  | t :: ts' =>
      lastPointer (mkPoint2 (hd_x (tk_hand t)) (hd_y (tk_hand t))) ts'
  end.

End HoloEarth.

(** ** components/HandTracker.tsx *)

Module HandTracker.

(** What [recognizerRef.current.recognizeForVideo] does on a frame: it throws,
    or it returns results whose [landmarks] field, when present, holds one
    landmark array per detected hand. *)
Inductive Recognition : Type :=
| Throws
| Results (landmarks : option (list (list HandLandmark))).

(** What one call of [predictWebcam] reads from its environment. *)
Record Frame : Type := mkFrame {
  (* videoRef.current && videoRef.current.readyState === 4 && canvasRef.current *)
  videoReady : bool;
  (* recognizerRef.current *)
  recognizerReady : bool;
  (* videoRef.current.currentTime *)
  currentTime : R;
  recognition : Recognition;
  (* canvasRef.current.getContext('2d') is not null *)
  hasContext : bool;
  (* Math.random() *)
  random : R
}.

(** The refs and the debug state [predictWebcam] reads and writes; the canvas
    it draws on is not modelled. *)
Record State : Type := mkState {
  prevHand : Point2;
  handDataRef : HandData;
  lastVideoTime : R;
  pinchDist : R
}.

(** The values the refs are created with ([handDataRef] in App.tsx). *)
Definition initial : State :=
  mkState (mkPoint2 0.5 0.5) (mkHandData 0.5 0.5 false) (-1) 0.

(** The body of the [try] block; [None] when it throws.  Every statement that
    can throw comes before the first write, so a throw leaves [s] as it was. *)
Definition tryBody (f : Frame) (s : State) : option State :=
  match recognition f with
  | Throws => None
  | Results landmarks =>
      if hasContext f then
        match landmarks with
        | Some (hand :: _) =>
            match nth_error hand 8, nth_error hand 4 with
            | Some indexTip, Some thumbTip =>
                (* calculate pinch *)
                let distance :=
                  sqrt ((lm_x thumbTip - lm_x indexTip) ^ 2
                        + (lm_y thumbTip - lm_y indexTip) ^ 2) in
                let pinchDist' :=
                  if Js.gtb (random f) 0.9 then distance else pinchDist s in
                let isPinching := Js.ltb distance 0.15 in
                (* smooth the input coordinates *)
                let rawX := 1 - lm_x indexTip in
                let rawY := lm_y indexTip in
                let alpha := 0.2 in
                let smoothX :=
                  px (prevHand s) + (rawX - px (prevHand s)) * alpha in
                let smoothY :=
                  py (prevHand s) + (rawY - py (prevHand s)) * alpha in
                Some (mkState (mkPoint2 smoothX smoothY)
                              (mkHandData smoothX smoothY isPinching)
                              (lastVideoTime s) pinchDist')
            | _, _ =>
                (* reading [.x] of an absent landmark throws a TypeError *)
                None
            end
        | _ =>
            Some (mkState (prevHand s)
                          (mkHandData (hd_x (handDataRef s))
                                      (hd_y (handDataRef s)) false)
                          (lastVideoTime s) (pinchDist s))
        end
      else Some s
  end.

(** One call of [predictWebcam]; the rescheduling through
    [requestAnimationFrame] is the caller's loop ([run] below).  The [catch]
    block only logs. *)
Definition predictWebcam (f : Frame) (s : State) : State :=
  if videoReady f then
    if recognizerReady f then
      if Js.neqb (currentTime f) (lastVideoTime s) then
        let s1 :=
          mkState (prevHand s) (handDataRef s) (currentTime f) (pinchDist s) in
        match tryBody f s1 with
        | Some s2 => s2
        | None => s1
        end
      else s
    else s
  else s.

(** The state after the frames [fs]. *)
Definition run (s : State) (fs : list Frame) : State :=
  fold_left (fun s f => predictWebcam f s) fs s.

(** The state after each of the frames [fs], in order. *)
Fixpoint states (s : State) (fs : list Frame) : list State :=
  match fs with
  | [] => []
  | f :: fs' => predictWebcam f s :: states (predictWebcam f s) fs'
  end.

(** How [predictWebcam] treats a frame in state [s]. *)
Inductive Kind : Type :=
| Skipped                                (* a guard fails: nothing runs *)
| Failed                                 (* the [try] block throws *)
| NoContext                              (* no 2d context: nothing is written *)
| NoHand                                 (* no landmarks *)
| Hand (thumbTip indexTip : HandLandmark).

Definition kind (f : Frame) (s : State) : Kind :=
  if videoReady f && recognizerReady f
     && Js.neqb (currentTime f) (lastVideoTime s) then
    match recognition f with
    | Throws => Failed
    | Results landmarks =>
        if hasContext f then
          match landmarks with
          | Some (hand :: _) =>
              match nth_error hand 8, nth_error hand 4 with
              | Some indexTip, Some thumbTip => Hand thumbTip indexTip
              | _, _ => Failed
              end
          | _ => NoHand
          end
        else NoContext
    end
  else Skipped.

(** The pinch distance of a hand. *)
Definition distance (thumbTip indexTip : HandLandmark) : R :=
  sqrt ((lm_x thumbTip - lm_x indexTip) ^ 2
        + (lm_y thumbTip - lm_y indexTip) ^ 2).

(** A 21-landmark hand with the given thumb tip (index 4) and index
    fingertip (index 8); the other landmarks are at the origin. *)
Definition handOf (thumbTip indexTip : HandLandmark) : list HandLandmark :=
  let o := mkLandmark 0 0 0 in
  [o; o; o; o; thumbTip; o; o; o; indexTip] ++ repeat o 12.

(** A frame at video time [t] on which everything is ready and one hand is
    detected. *)
Definition handFrame (t : R) (thumbTip indexTip : HandLandmark) : Frame :=
  mkFrame true true t (Results (Some [handOf thumbTip indexTip])) true 0.

(** A frame at video time [t] on which detection throws. *)
Definition throwingFrame (t : R) : Frame := mkFrame true true t Throws true 0.

(** A frame at video time [t] on which no hand is detected. *)
Definition emptyFrame (t : R) : Frame :=
  mkFrame true true t (Results (Some [])) true 0.

(** [n] consecutive frames, at video times [t + 1], [t + 2], ..., that all
    see the same hand: the raw input is held constant. *)
Fixpoint heldFrames (n : nat) (t : R) (thumbTip indexTip : HandLandmark)
  : list Frame :=
  match n with
  | O => []
  | S k => handFrame (t + 1) thumbTip indexTip
           :: heldFrames k (t + 1) thumbTip indexTip
  end.

(** A point of the unit square. *)
Definition inUnitSquare (x y : R) : Prop := 0 <= x <= 1 /\ 0 <= y <= 1.

(** The index fingertip of the hand a frame reports, if it reports one, lies
    in the unit square. *)
Definition tipInUnitSquare (f : Frame) : Prop :=
  forall hand rest indexTip,
    recognition f = Results (Some (hand :: rest)) ->
    nth_error hand 8 = Some indexTip ->
    inUnitSquare (lm_x indexTip) (lm_y indexTip).

(** Both copies of the smoothed pointer lie in the unit square. *)
Definition pointerInUnitSquare (s : State) : Prop :=
  inUnitSquare (px (prevHand s)) (py (prevHand s))
  /\ inUnitSquare (hd_x (handDataRef s)) (hd_y (handDataRef s)).

(** The pointer published in [handDataRef] is the smoother's state. *)
Definition published (s : State) : Prop :=
  hd_x (handDataRef s) = px (prevHand s)
  /\ hd_y (handDataRef s) = py (prevHand s).

(** The width, in percent, of the pinch strength meter:
    [Math.max(0, Math.min(100, (1 - (pinchDist / 0.3)) * 100))]. *)
Definition meterWidth (pinchDist : R) : R :=
  Rmax 0 (Rmin 100 ((1 - pinchDist / 0.3) * 100)).

End HandTracker.

(** ** services/geminiService.ts *)

Module GeminiService.

Open Scope string_scope.

(** The enum [EarthCategory] of types.ts and its string values. *)
Inductive EarthCategory : Type :=
| ATMOSPHERE | GEOLOGY | OCEANOGRAPHY | ECOLOGY | HUMAN_IMPACT.

Definition categoryValue (c : EarthCategory) : string :=
  match c with
  | ATMOSPHERE => "Atmosphere"
  | GEOLOGY => "Geology"
  | OCEANOGRAPHY => "Oceans"
  | ECOLOGY => "Ecology"
  | HUMAN_IMPACT => "Human Impact"
  end.

(** A source citation [{ uri, title }]. *)
Record Source : Type := mkSource { uri : string; title : string }.

(** A grounding chunk, with its optional [web] field. *)
Record Chunk : Type := mkChunk { web : option Source }.

(** What the service reads of a response: [response.text] and
    [response.candidates?.[0]?.groundingMetadata?.groundingChunks], each
    possibly undefined. *)
Record Response : Type := mkResponse {
  text : option string;
  groundingChunks : option (list Chunk)
}.

(** What [await ai.models.generateContent(...)] does: it throws, or it
    yields a response.  The prompt only reaches the remote model. *)
Inductive Outcome : Type :=
| Rejects
| Resolves (response : Response).

(** [GeminiResponse] of types.ts. *)
Record GeminiResponse : Type := mkGeminiResponse {
  gr_text : string;
  gr_sources : option (list Source)
}.

(** [a || b] on a possibly undefined string: [b] when [a] is undefined or
    empty. *)
Definition or_string (a : option string) (b : string) : string :=
  match a with
  | Some EmptyString => b
  | Some s => s
  | None => b
  end.

(** [fetchEarthData(category)], given what the remote call does.  The
    category and the optional [query] only shape the prompt. *)
Definition fetchEarthData (category : EarthCategory) (o : Outcome)
  : GeminiResponse :=
  match o with
  | Resolves response =>
      mkGeminiResponse (or_string (text response) "Database unreachable.") None
  | Rejects =>
      mkGeminiResponse "Error establishing uplink with Knowledge Core." None
  end.

(** [xs.filter(source => source !== null)]. *)
Fixpoint dropNull (xs : list (option Source)) : list Source :=
  match xs with
  | [] => []
  | Some x :: xs' => x :: dropNull xs'
  | None :: xs' => dropNull xs'
  end.

(** [analyzeLocation(lat, lon)], given what the remote call does.  The
    coordinate only shapes the prompt. *)
Definition analyzeLocation (lat lon : R) (o : Outcome) : GeminiResponse :=
  match o with
  | Resolves response =>
      let sources :=
        option_map
          (fun chunks =>
             dropNull
               (map (fun chunk =>
                       match web chunk with
                       | Some w => Some (mkSource (uri w) (title w))
                       | None => None
                       end) chunks))
          (groundingChunks response) in
      mkGeminiResponse
        (or_string (text response) "Signal lost. Unable to scan coordinates.")
        sources
  | Rejects => mkGeminiResponse "Telemetry link failed." None
  end.

End GeminiService.

(** ** components/InfoPanel.tsx *)

Module InfoPanel.

Import GeminiService.

(** Whether the panel renders its "Data Sources" block:
    [!loading && sources && sources.length > 0]. *)
Definition showsSources (loading : bool) (sources : option (list Source))
  : bool :=
  if loading then false
  else match sources with
       | Some (_ :: _) => true
       | _ => false
       end.

(** The label of a source link: [source.title || source.uri]. *)
Definition sourceLabel (source : Source) : string :=
  or_string (Some (title source)) (uri source).

End InfoPanel.

(** ** App.tsx *)

Module App.

Import GeminiService.
Open Scope string_scope.

(** The state hooks of [App]. *)
Record AppState : Type := mkApp {
  activeCategory : string;
  fact : string;
  sources : option (list Source);
  loading : bool;
  systemStatus : string;
  selectedLocation : option LocationData
}.

Definition initial : AppState :=
  mkApp (categoryValue GEOLOGY)
        "System Initialized. Select a planetary sector to begin analysis, or click on the globe to scan a region."
        None false "Standby" None.

(** [handleCategorySelect] up to its [await]. *)
Definition handleCategorySelect_start (category : EarthCategory)
    (st : AppState) : AppState :=
  mkApp (categoryValue category) "" None true (systemStatus st) None.

(** [handleCategorySelect] after its [await], once the service call has had
    the outcome [o]. *)
Definition handleCategorySelect_resume (category : EarthCategory) (o : Outcome)
    (st : AppState) : AppState :=
  let data := fetchEarthData category o in
  mkApp (activeCategory st) (gr_text data) (gr_sources data) false
        (systemStatus st) (selectedLocation st).

(** [handleLocationSelect] up to its [await]. *)
Definition handleLocationSelect_start (lat lon : R) (st : AppState)
  : AppState :=
  mkApp "COORDINATE SCAN" "" None true (systemStatus st)
        (Some (mkLocation lat lon)).

(** [handleLocationSelect] after its [await]. *)
Definition handleLocationSelect_resume (lat lon : R) (o : Outcome)
    (st : AppState) : AppState :=
  let data := analyzeLocation lat lon o in
  mkApp (activeCategory st) (gr_text data) (gr_sources data) false
        (systemStatus st) (selectedLocation st).

(** What can happen to [App]: a menu click, a pick on the globe, and the
    completion of the service call either one started. *)
Inductive Event : Type :=
| CategoryClick (category : EarthCategory)
| CategoryReply (category : EarthCategory) (o : Outcome)
| LocationPick (lat lon : R)
| LocationReply (lat lon : R) (o : Outcome).

Definition handle (st : AppState) (e : Event) : AppState :=
  match e with
  | CategoryClick c => handleCategorySelect_start c st
  | CategoryReply c o => handleCategorySelect_resume c o st
  | LocationPick la lo => handleLocationSelect_start la lo st
  | LocationReply la lo o => handleLocationSelect_resume la lo o st
  end.

Definition run (st : AppState) (es : list Event) : AppState :=
  fold_left handle es st.

End App.

(** * Properties *)

(** ** JavaScript comparisons *)

Lemma ltb_true (a b : R) : Js.ltb a b = true <-> a < b.
Proof.
  unfold Js.ltb; destruct (Rlt_dec a b); split; intro; auto; discriminate.
Qed.

Lemma ltb_false (a b : R) : Js.ltb a b = false <-> b <= a.
Proof.
  unfold Js.ltb; destruct (Rlt_dec a b); split; intro; auto; try discriminate; lra.
Qed.

Lemma neqb_true (a b : R) : Js.neqb a b = true <-> a <> b.
Proof.
  unfold Js.neqb; destruct (Req_dec_T a b); split; intro; auto;
    try discriminate; contradiction.
Qed.

(** ** The hand tracker, frame by frame *)

Section HandTrackerFacts.

Import HandTracker.

Lemma kind_hand (f : Frame) (s : State) (hand : list HandLandmark)
    (rest : list (list HandLandmark)) (thumbTip indexTip : HandLandmark) :
  videoReady f = true -> recognizerReady f = true ->
  currentTime f <> lastVideoTime s -> hasContext f = true ->
  recognition f = Results (Some (hand :: rest)) ->
  nth_error hand 4 = Some thumbTip -> nth_error hand 8 = Some indexTip ->
  kind f s = Hand thumbTip indexTip.
Proof.
  intros Hv Hr Ht Hc Hrec H4 H8. unfold kind.
  rewrite Hv, Hr, (proj2 (neqb_true _ _) Ht), Hrec, Hc, H8, H4. reflexivity.
Qed.

(** Walks through the guards and branches of [predictWebcam] and [kind]. *)
Ltac by_branches f s :=
  unfold kind, predictWebcam, tryBody, distance;
  destruct (videoReady f), (recognizerReady f),
    (Js.neqb (currentTime f) (lastVideoTime s));
  cbv beta iota zeta delta [andb];
  try (intros; discriminate); try reflexivity;
  destruct (recognition f) as [|[[|hand rest]|]];
  try (intros; discriminate); try reflexivity;
  destruct (hasContext f);
  try (intros; discriminate); try reflexivity;
  destruct (nth_error hand 8) as [i|], (nth_error hand 4) as [t|];
  try (intros; discriminate); try reflexivity.

(** On a frame with a hand: the smoothed pointer moves a fifth of the way to
    the mirrored fingertip and [active] is the pinch test. *)
Lemma predictWebcam_hand (f : Frame) (s : State) (thumbTip indexTip : HandLandmark) :
  kind f s = Hand thumbTip indexTip ->
  let smoothX := px (prevHand s) + (1 - lm_x indexTip - px (prevHand s)) * 0.2 in
  let smoothY := py (prevHand s) + (lm_y indexTip - py (prevHand s)) * 0.2 in
  predictWebcam f s =
    mkState (mkPoint2 smoothX smoothY)
            (mkHandData smoothX smoothY
                        (Js.ltb (distance thumbTip indexTip) 0.15))
            (currentTime f)
            (if Js.gtb (random f) 0.9 then distance thumbTip indexTip
             else pinchDist s).
Proof.
  by_branches f s. intros H; injection H as -> ->. reflexivity.
Qed.

(** On a frame without a hand: only [active] is written. *)
Lemma predictWebcam_nohand (f : Frame) (s : State) :
  kind f s = NoHand ->
  predictWebcam f s =
    mkState (prevHand s)
            (mkHandData (hd_x (handDataRef s)) (hd_y (handDataRef s)) false)
            (currentTime f) (pinchDist s).
Proof. by_branches f s. Qed.

(** On a frame whose [try] block throws: only [lastVideoTime] is written. *)
Lemma predictWebcam_failed (f : Frame) (s : State) :
  kind f s = Failed ->
  predictWebcam f s =
    mkState (prevHand s) (handDataRef s) (currentTime f) (pinchDist s).
Proof. by_branches f s. Qed.

(** Without a 2d context nothing but [lastVideoTime] is written. *)
Lemma predictWebcam_nocontext (f : Frame) (s : State) :
  kind f s = NoContext ->
  predictWebcam f s =
    mkState (prevHand s) (handDataRef s) (currentTime f) (pinchDist s).
Proof. by_branches f s. Qed.

(** A frame that fails a guard changes nothing. *)
Lemma predictWebcam_skipped (f : Frame) (s : State) :
  kind f s = Skipped -> predictWebcam f s = s.
Proof. by_branches f s. Qed.

(** [active] after a frame with a hand is exactly the pinch test. *)
Lemma hand_frame_active (f : Frame) (s : State) (thumbTip indexTip : HandLandmark) :
  kind f s = Hand thumbTip indexTip ->
  hd_active (handDataRef (predictWebcam f s)) = true
  <-> distance thumbTip indexTip < 0.15.
Proof.
  intros H. rewrite (predictWebcam_hand f s _ _ H). simpl. apply ltb_true.
Qed.

(** A frame without a hand clears [active] and keeps the pointer. *)
Lemma nohand_frame_inactive (f : Frame) (s : State) :
  kind f s = NoHand ->
  hd_active (handDataRef (predictWebcam f s)) = false
  /\ hd_x (handDataRef (predictWebcam f s)) = hd_x (handDataRef s)
  /\ hd_y (handDataRef (predictWebcam f s)) = hd_y (handDataRef s)
  /\ prevHand (predictWebcam f s) = prevHand s.
Proof.
  intros H. rewrite (predictWebcam_nohand f s H). simpl. auto.
Qed.

(** A frame whose detection throws leaves the whole pointer state, [active]
    included, as the previous frame wrote it. *)
Lemma failed_frame_keeps_pointer (f : Frame) (s : State) :
  kind f s = Failed ->
  handDataRef (predictWebcam f s) = handDataRef s
  /\ prevHand (predictWebcam f s) = prevHand s.
Proof.
  intros H. rewrite (predictWebcam_failed f s H). simpl. auto.
Qed.

Lemma kind_handFrame (t : R) (s : State) (thumbTip indexTip : HandLandmark) :
  t <> lastVideoTime s ->
  kind (handFrame t thumbTip indexTip) s = Hand thumbTip indexTip.
Proof.
  intros Ht.
  apply (kind_hand _ s (handOf thumbTip indexTip) [] thumbTip indexTip);
    auto.
Qed.

Lemma kind_throwingFrame (t : R) (s : State) :
  t <> lastVideoTime s -> kind (throwingFrame t) s = Failed.
Proof.
  intros Ht. unfold kind, throwingFrame. simpl.
  rewrite (proj2 (neqb_true _ _) Ht). reflexivity.
Qed.

Lemma kind_emptyFrame (t : R) (s : State) :
  t <> lastVideoTime s -> kind (emptyFrame t) s = NoHand.
Proof.
  intros Ht. unfold kind, emptyFrame. simpl.
  rewrite (proj2 (neqb_true _ _) Ht). reflexivity.
Qed.

Lemma sqrt_sq_const (a b c : R) : 0 <= c -> a ^ 2 + b ^ 2 = c * c ->
  sqrt (a ^ 2 + b ^ 2) = c.
Proof.
  intros Hc ->. apply sqrt_square, Hc.
Qed.

(** C5. For a detected hand the classifier takes
    d = sqrt((tx-ix)^2 + (ty-iy)^2) over the x,y of the thumb tip (landmark 4)
    and the index fingertip (landmark 8), z unused, and sets
    isPinching = d < 0.15 with a strict comparison: d = 0.15 is not a pinch,
    d = 0.1499 is. *)
Theorem pinch_is_strict_threshold (f : Frame) (s : State)
    (hand : list HandLandmark) (rest : list (list HandLandmark))
    (thumbTip indexTip : HandLandmark) :
  videoReady f = true -> recognizerReady f = true ->
  currentTime f <> lastVideoTime s -> hasContext f = true ->
  recognition f = Results (Some (hand :: rest)) ->
  nth_error hand 4 = Some thumbTip -> nth_error hand 8 = Some indexTip ->
  let d := sqrt ((lm_x thumbTip - lm_x indexTip) ^ 2
                 + (lm_y thumbTip - lm_y indexTip) ^ 2) in
  let isPinching := hd_active (handDataRef (predictWebcam f s)) in
  (isPinching = true <-> d < 0.15)
  /\ (d = 0.15 -> isPinching = false)
  /\ (d = 0.1499 -> isPinching = true).
Proof.
  intros Hv Hr Ht Hc Hrec H4 H8 d isPinching.
  pose proof (kind_hand f s hand rest thumbTip indexTip Hv Hr Ht Hc Hrec H4 H8)
    as Hk.
  assert (Hiff : isPinching = true <-> d < 0.15)
    by exact (hand_frame_active f s thumbTip indexTip Hk).
  split; [exact Hiff|]. split; intros Hd.
  - destruct isPinching; [|reflexivity].
    assert (d < 0.15) by (apply Hiff; reflexivity). lra.
  - apply Hiff. lra.
Qed.

Lemma pinch_is_strict_threshold_witness :
  hd_active (handDataRef (predictWebcam
     (handFrame 0 (mkLandmark 0.15 0.5 0) (mkLandmark 0 0.5 0)) initial)) = false
  /\ hd_active (handDataRef (predictWebcam
     (handFrame 0 (mkLandmark 0.5 0.1499 3) (mkLandmark 0.5 0 0)) initial)) = true.
Proof.
  split.
  - apply (pinch_is_strict_threshold
             (handFrame 0 (mkLandmark 0.15 0.5 0) (mkLandmark 0 0.5 0)) initial
             (handOf (mkLandmark 0.15 0.5 0) (mkLandmark 0 0.5 0)) []
             (mkLandmark 0.15 0.5 0) (mkLandmark 0 0.5 0));
      try reflexivity.
    + simpl; lra.
    + simpl lm_x; simpl lm_y. apply sqrt_sq_const; simpl; lra.
  - apply (pinch_is_strict_threshold
             (handFrame 0 (mkLandmark 0.5 0.1499 3) (mkLandmark 0.5 0 0)) initial
             (handOf (mkLandmark 0.5 0.1499 3) (mkLandmark 0.5 0 0)) []
             (mkLandmark 0.5 0.1499 3) (mkLandmark 0.5 0 0));
      try reflexivity.
    + simpl; lra.
    + simpl lm_x; simpl lm_y. apply sqrt_sq_const; simpl; lra.
Defined.

(** C2, at the input on which the code departs from it: a pinching hand on
    one frame, then a frame whose detection throws.  The [catch] block only
    logs, so [active] is still [true] after the throwing frame, where the
    frame without a hand would have cleared it. *)
Theorem throw_leaves_active_stale :
  let pinch := mkLandmark 0.5 0.5 0 in
  let s1 := predictWebcam (handFrame 0 pinch pinch) initial in
  let s2 := predictWebcam (throwingFrame 1) s1 in
  hd_active (handDataRef s1) = true
  /\ kind (throwingFrame 1) s1 = Failed
  /\ hd_active (handDataRef s2) = true
  /\ hd_active (handDataRef (predictWebcam (emptyFrame 1) s1)) = false.
Proof.
  intros pinch s1 s2.
  assert (H0 : kind (handFrame 0 pinch pinch) initial = Hand pinch pinch)
    by (apply kind_handFrame; simpl; lra).
  assert (Hs1 : lastVideoTime s1 = 0)
    by (unfold s1; rewrite (predictWebcam_hand _ _ _ _ H0); reflexivity).
  assert (Ha : hd_active (handDataRef s1) = true).
  { apply (hand_frame_active _ _ _ _ H0). unfold distance, pinch. simpl.
    replace ((0.5 - 0.5) * ((0.5 - 0.5) * 1) + (0.5 - 0.5) * ((0.5 - 0.5) * 1))
      with 0 by lra.
    rewrite sqrt_0. lra. }
  assert (H1 : kind (throwingFrame 1) s1 = Failed)
    by (apply kind_throwingFrame; rewrite Hs1; lra).
  assert (H2 : kind (emptyFrame 1) s1 = NoHand)
    by (apply kind_emptyFrame; rewrite Hs1; lra).
  repeat split; trivial.
  - unfold s2. rewrite (proj1 (failed_frame_keeps_pointer _ _ H1)). exact Ha.
  - apply (nohand_frame_inactive _ _ H2).
Qed.

(** *** Smoothing *)

(** One frame with a hand: each coordinate's signed distance to the raw
    value is multiplied by 1 - alpha, and the pointer published in
    [handDataRef] is the smoother's own state. *)
Lemma smoothing_step (f : Frame) (s : State) (thumbTip indexTip : HandLandmark) :
  kind f s = Hand thumbTip indexTip ->
  let s' := predictWebcam f s in
  px (prevHand s') - (1 - lm_x indexTip)
    = (1 - 0.2) * (px (prevHand s) - (1 - lm_x indexTip))
  /\ py (prevHand s') - lm_y indexTip
    = (1 - 0.2) * (py (prevHand s) - lm_y indexTip)
  /\ hd_x (handDataRef s') = px (prevHand s')
  /\ hd_y (handDataRef s') = py (prevHand s')
  /\ lastVideoTime s' = currentTime f.
Proof.
  intros H s'. unfold s'. rewrite (predictWebcam_hand f s _ _ H). simpl.
  repeat split; lra.
Qed.

(** [n] frames of a held input: the signed distance is multiplied by
    (1 - alpha)^n. *)
Lemma held_frames_closed_form (n : nat) (thumbTip indexTip : HandLandmark) :
  forall s : State,
  let s' := run s (heldFrames n (lastVideoTime s) thumbTip indexTip) in
  px (prevHand s') - (1 - lm_x indexTip)
    = (1 - 0.2) ^ n * (px (prevHand s) - (1 - lm_x indexTip))
  /\ py (prevHand s') - lm_y indexTip
    = (1 - 0.2) ^ n * (py (prevHand s) - lm_y indexTip).
Proof.
  induction n as [|k IH]; intros s s'.
  - unfold s'; simpl; split; lra.
  - assert (Hk : kind (handFrame (lastVideoTime s + 1) thumbTip indexTip) s
                 = Hand thumbTip indexTip) by (apply kind_handFrame; lra).
    destruct (smoothing_step _ _ _ _ Hk) as (Hx & Hy & _ & _ & Ht).
    change (currentTime (handFrame (lastVideoTime s + 1) thumbTip indexTip))
      with (lastVideoTime s + 1) in Ht.
    specialize (IH (predictWebcam
                      (handFrame (lastVideoTime s + 1) thumbTip indexTip) s)).
    rewrite Ht in IH.
    change (run (predictWebcam
                   (handFrame (lastVideoTime s + 1) thumbTip indexTip) s)
                (heldFrames k (lastVideoTime s + 1) thumbTip indexTip))
      with s' in IH.
    destruct IH as [IHx IHy]. rewrite IHx, IHy, Hx, Hy. simpl pow. split; ring.
Qed.

Lemma pow_08_20 : 115 / 10000 < (1 - 0.2) ^ 20 < 116 / 10000.
Proof. simpl; lra. Qed.

Lemma pow_08_27 : 0 < (1 - 0.2) ^ 27 < 25 / 10000.
Proof. simpl; lra. Qed.

(** The step input: from the initial smoothed state (0.5, 0.5),
    [n] frames whose index fingertip is at (0.1, 0.1), that is a raw target
    of (0.9, 0.1) after mirroring. *)
Lemma step_input (n : nat) (thumbTip : HandLandmark) :
  let s' := run initial (heldFrames n (-1) thumbTip (mkLandmark 0.1 0.1 0)) in
  px (prevHand s') - 0.9 = (1 - 0.2) ^ n * (- 0.4)
  /\ py (prevHand s') - 0.1 = (1 - 0.2) ^ n * 0.4.
Proof.
  destruct (held_frames_closed_form n thumbTip (mkLandmark 0.1 0.1 0) initial)
    as [Hx Hy].
  simpl in Hx, Hy. simpl. split; lra.
Qed.

(** C4, as the code has it.  Holding the raw input constant, every frame
    multiplies each coordinate's distance to the raw value by 1 - alpha = 0.8
    (so [n] frames multiply it by 0.8^n); after 20 frames of the step input
    from (0.5, 0.5) to the raw target (0.9, 0.1) the smoothed value is within
    5e-3 of the target in each coordinate, and within 1e-3 after 27 frames. *)
Theorem smoothing_converges_geometrically :
  (forall f s thumbTip indexTip,
      kind f s = Hand thumbTip indexTip ->
      let s' := predictWebcam f s in
      Rabs (px (prevHand s') - (1 - lm_x indexTip))
        = (1 - 0.2) * Rabs (px (prevHand s) - (1 - lm_x indexTip))
      /\ Rabs (py (prevHand s') - lm_y indexTip)
        = (1 - 0.2) * Rabs (py (prevHand s) - lm_y indexTip)
      /\ hd_x (handDataRef s') = px (prevHand s')
      /\ hd_y (handDataRef s') = py (prevHand s'))
  /\ (forall n s thumbTip indexTip,
      let s' := run s (heldFrames n (lastVideoTime s) thumbTip indexTip) in
      Rabs (px (prevHand s') - (1 - lm_x indexTip))
        = (1 - 0.2) ^ n * Rabs (px (prevHand s) - (1 - lm_x indexTip))
      /\ Rabs (py (prevHand s') - lm_y indexTip)
        = (1 - 0.2) ^ n * Rabs (py (prevHand s) - lm_y indexTip))
  /\ (forall thumbTip,
      let s20 :=
        run initial (heldFrames 20 (-1) thumbTip (mkLandmark 0.1 0.1 0)) in
      Rabs (px (prevHand s20) - 0.9) <= 0.005
      /\ Rabs (py (prevHand s20) - 0.1) <= 0.005)
  /\ (forall thumbTip,
      let s27 :=
        run initial (heldFrames 27 (-1) thumbTip (mkLandmark 0.1 0.1 0)) in
      Rabs (px (prevHand s27) - 0.9) <= 0.001
      /\ Rabs (py (prevHand s27) - 0.1) <= 0.001).
Proof.
  assert (Habs : forall k a : R, 0 <= k -> Rabs (k * a) = k * Rabs a).
  { intros k a Hk. rewrite Rabs_mult, (Rabs_right k); [reflexivity | lra]. }
  repeat apply conj.
  - intros f s thumbTip indexTip H s'.
    destruct (smoothing_step f s thumbTip indexTip H) as (Hx & Hy & Hhx & Hhy & _).
    fold s' in Hx, Hy, Hhx, Hhy. rewrite Hx, Hy.
    rewrite !Habs by lra. auto.
  - intros n s thumbTip indexTip s'.
    destruct (held_frames_closed_form n thumbTip indexTip s) as [Hx Hy].
    fold s' in Hx, Hy. rewrite Hx, Hy.
    assert (0 <= (1 - 0.2) ^ n) by (apply pow_le; lra).
    rewrite !Habs by assumption. auto.
  - intros thumbTip s20.
    destruct (step_input 20 thumbTip) as [Hx Hy]. fold s20 in Hx, Hy.
    rewrite Hx, Hy. pose proof pow_08_20 as Hp.
    rewrite !Habs by lra. rewrite Rabs_left, Rabs_right by lra. lra.
  - intros thumbTip s27.
    destruct (step_input 27 thumbTip) as [Hx Hy]. fold s27 in Hx, Hy.
    rewrite Hx, Hy. pose proof pow_08_27 as Hp.
    rewrite !Habs by lra. rewrite Rabs_left, Rabs_right by lra. lra.
Qed.

Lemma smoothing_converges_geometrically_witness :
  let f := handFrame 0 (mkLandmark 0.5 0.5 0) (mkLandmark 0.1 0.1 0) in
  kind f initial = Hand (mkLandmark 0.5 0.5 0) (mkLandmark 0.1 0.1 0)
  /\ Rabs (px (prevHand (predictWebcam f initial)) - (1 - 0.1))
     = (1 - 0.2) * Rabs (0.5 - (1 - 0.1)).
Proof.
  intros f.
  assert (H : kind f initial = Hand (mkLandmark 0.5 0.5 0) (mkLandmark 0.1 0.1 0))
    by (apply kind_handFrame; simpl; lra).
  split; [exact H|].
  exact (proj1 (proj1 smoothing_converges_geometrically f initial _ _ H)).
Defined.

(** C4 as stated fails on the code: after 20 frames of the step input the
    smoothed value is 0.4 * 0.8^20, about 4.6e-3, away from the target in
    each coordinate, which is more than 1e-3 in any norm. *)
Lemma twenty_frames_miss_1e3 :
  let tip := mkLandmark 0.1 0.1 0 in
  let s20 := run initial (heldFrames 20 (-1) tip tip) in
  ~ Rabs (px (prevHand s20) - 0.9) <= 0.001
  /\ ~ Rabs (py (prevHand s20) - 0.1) <= 0.001
  /\ ~ sqrt ((px (prevHand s20) - 0.9) ^ 2 + (py (prevHand s20) - 0.1) ^ 2)
       <= 0.001.
Proof.
  intros tip s20. subst tip.
  destruct (step_input 20 (mkLandmark 0.1 0.1 0)) as [Hx Hy].
  fold s20 in Hx, Hy.
  pose proof pow_08_20 as Hp.
  assert (Ax : 0.004 < Rabs (px (prevHand s20) - 0.9))
    by (rewrite Hx, Rabs_left; lra).
  assert (Ay : 0.004 < Rabs (py (prevHand s20) - 0.1))
    by (rewrite Hy, Rabs_right; lra).
  repeat split; try lra.
  intros Hs.
  assert (Hle : Rabs (px (prevHand s20) - 0.9)
                <= sqrt ((px (prevHand s20) - 0.9) ^ 2
                         + (py (prevHand s20) - 0.1) ^ 2)).
  { rewrite <- sqrt_Rsqr_abs. apply sqrt_le_1_alt. unfold Rsqr. nra. }
  lra.
Qed.

(** *** The unit square *)

Lemma kind_hand_inv (f : Frame) (s : State) (thumbTip indexTip : HandLandmark) :
  kind f s = Hand thumbTip indexTip ->
  exists hand rest,
    recognition f = Results (Some (hand :: rest))
    /\ nth_error hand 8 = Some indexTip.
Proof.
  unfold kind.
  destruct (videoReady f && recognizerReady f
            && Js.neqb (currentTime f) (lastVideoTime s)); [|discriminate].
  destruct (recognition f) as [|[[|hand rest]|]]; try discriminate;
    destruct (hasContext f); try discriminate.
  destruct (nth_error hand 8) as [i|] eqn:H8; [|discriminate].
  destruct (nth_error hand 4) as [t|]; [|discriminate].
  intros H; injection H as _ <-. exists hand, rest. auto.
Qed.

(** A frame keeps the pointer in the unit square: the new smoothed value is
    the convex combination 0.8 * previous + 0.2 * raw. *)
Lemma unit_square_step (f : Frame) (s : State) :
  tipInUnitSquare f -> pointerInUnitSquare s ->
  pointerInUnitSquare (predictWebcam f s).
Proof.
  intros Htip Hs. destruct (kind f s) as [| | | |t i] eqn:Hk.
  - rewrite (predictWebcam_skipped f s Hk). exact Hs.
  - rewrite (predictWebcam_failed f s Hk). exact Hs.
  - rewrite (predictWebcam_nocontext f s Hk). exact Hs.
  - rewrite (predictWebcam_nohand f s Hk). exact Hs.
  - rewrite (predictWebcam_hand f s t i Hk).
    destruct (kind_hand_inv f s t i Hk) as (hand & rest & Hrec & H8).
    destruct (Htip hand rest i Hrec H8) as [Hx Hy].
    destruct Hs as [[Hpx Hpy] _].
    unfold pointerInUnitSquare, inUnitSquare. simpl. lra.
Qed.

Lemma unit_square_states (fs : list Frame) :
  forall s, Forall tipInUnitSquare fs -> pointerInUnitSquare s ->
  Forall pointerInUnitSquare (states s fs)
  /\ pointerInUnitSquare (run s fs).
Proof.
  induction fs as [|f fs IH]; intros s Hfs Hs.
  - split; [constructor | exact Hs].
  - inversion Hfs as [|? ? Hf Hfs']; subst.
    pose proof (unit_square_step f s Hf Hs) as Hs'.
    destruct (IH (predictWebcam f s) Hfs' Hs') as [IH1 IH2].
    split; [constructor; assumption | exact IH2].
Qed.

Lemma initial_in_unit_square : pointerInUnitSquare initial.
Proof. unfold pointerInUnitSquare, inUnitSquare; simpl; lra. Qed.

Lemma tipInUnitSquare_handFrame (t : R) (thumbTip indexTip : HandLandmark) :
  inUnitSquare (lm_x indexTip) (lm_y indexTip) ->
  tipInUnitSquare (handFrame t thumbTip indexTip).
Proof.
  intros H hand rest i Hrec H8. simpl in Hrec.
  injection Hrec as <- _. simpl in H8. injection H8 as <-. exact H.
Qed.

Lemma tipInUnitSquare_emptyFrame (t : R) : tipInUnitSquare (emptyFrame t).
Proof. intros hand rest i Hrec. discriminate. Qed.

(** C10. Starting from the initial smoothing state (0.5, 0.5), if the index
    fingertip of every reported hand has x and y in [0,1] (so the mirrored
    raw x is in [0,1] as well), then after every frame both the smoother's
    state and the pointer it publishes have x and y in [0,1]. *)
Theorem smoothed_pointer_stays_in_unit_square (fs : list Frame) :
  Forall tipInUnitSquare fs ->
  Forall pointerInUnitSquare (states initial fs)
  /\ pointerInUnitSquare (run initial fs).
Proof.
  intros Hfs. apply unit_square_states; [exact Hfs | exact initial_in_unit_square].
Qed.

Lemma smoothed_pointer_stays_in_unit_square_witness :
  let fs := [handFrame 0 (mkLandmark 0.5 0.5 0) (mkLandmark 1 0 0);
             emptyFrame 1;
             handFrame 2 (mkLandmark 0.5 0.5 0) (mkLandmark 0 1 0)] in
  Forall pointerInUnitSquare (states initial fs)
  /\ pointerInUnitSquare (run initial fs).
Proof.
  intros fs. apply (smoothed_pointer_stays_in_unit_square fs).
  apply Forall_cons;
    [apply tipInUnitSquare_handFrame; unfold inUnitSquare; simpl; lra|].
  apply Forall_cons; [apply tipInUnitSquare_emptyFrame|].
  apply Forall_cons;
    [apply tipInUnitSquare_handFrame; unfold inUnitSquare; simpl; lra|].
  apply Forall_nil.
Defined.

End HandTrackerFacts.

(** ** The drag tracker and the rotation controller *)

Section HoloEarthFacts.

Import HoloEarth.

(** Two emitted deltas are equal when their coordinates are. *)
Lemma some_pair_eq (a b c d : R) : a = c -> b = d -> Some (a, b) = Some (c, d).
Proof. intros -> ->. reflexivity. Qed.

(** The first active frame after an inactive one stores the pointer and
    leaves the globe's rotation as it was. *)
Lemma useFrame_grab (earth : Euler) (clouds : option Euler) (x y : R)
    (sel : option LocationData) (dt : R) :
  useFrame (mkHandData x y true) sel dt (mkScene (Some earth) clouds None)
  = mkScene (Some earth) (option_map (add_y (dt * 0.02)) clouds)
            (Some (mkPoint2 x y)).
Proof. reflexivity. Qed.

(** A later active frame turns the globe by ten times the pointer's move
    since the stored position, and stores the new position. *)
Lemma useFrame_drag (earth : Euler) (clouds : option Euler) (last : Point2)
    (x y : R) (sel : option LocationData) (dt : R) :
  useFrame (mkHandData x y true) sel dt (mkScene (Some earth) clouds (Some last))
  = mkScene (Some (mkEuler (rot_x earth + (y - py last) * 10)
                           (rot_y earth + (x - px last) * 10)
                           (rot_z earth)))
            (option_map (add_y (dt * 0.02)) clouds)
            (Some (mkPoint2 x y)).
Proof. reflexivity. Qed.

(** An inactive frame forgets the stored position; the globe spins by
    [dt * 0.05] unless a location is selected. *)
Lemma useFrame_idle (earth : Euler) (clouds : option Euler)
    (last : option Point2) (x y : R) (sel : option LocationData) (dt : R) :
  useFrame (mkHandData x y false) sel dt (mkScene (Some earth) clouds last)
  = mkScene (Some (match sel with
                   | None => mkEuler (rot_x earth) (rot_y earth + dt * 0.05)
                                     (rot_z earth)
                   | Some _ => earth
                   end))
            (option_map (add_y (dt * 0.02)) clouds)
            None.
Proof. destruct sel; reflexivity. Qed.

(** C1. Over the frames [inactive, active, active, active] with smoothed
    positions [_, (0.5,0.5), (0.6,0.5), (0.6,0.6)] the deltas applied to the
    globe are [none, (0,0), (0.1,0), (0,0.1)].  Every Idle-to-Dragging frame
    records the pointer as the anchor and leaves the rotation unchanged (a
    zero delta); every later active frame applies the difference between the
    pointer and the previous frame's pointer, and records the pointer. *)
Theorem no_jump_on_grab :
  (forall earth clouds last x0 y0 sel1 sel2 sel3 sel4 dt1 dt2 dt3 dt4,
      deltas (mkScene (Some earth) clouds last)
             [mkTick (mkHandData x0 y0 false) sel1 dt1;
              mkTick (mkHandData 0.5 0.5 true) sel2 dt2;
              mkTick (mkHandData 0.6 0.5 true) sel3 dt3;
              mkTick (mkHandData 0.6 0.6 true) sel4 dt4]
      = [None; Some (0, 0); Some (0.1, 0); Some (0, 0.1)])
  /\ (forall earth clouds x y sel dt,
      let s := mkScene (Some earth) clouds None in
      let s' := useFrame (mkHandData x y true) sel dt s in
      lastHandPos s' = Some (mkPoint2 x y)
      /\ earthRef s' = Some earth
      /\ appliedDelta (mkHandData x y true) s s' = Some (0, 0))
  /\ (forall earth clouds last x y sel dt,
      let s := mkScene (Some earth) clouds (Some last) in
      let s' := useFrame (mkHandData x y true) sel dt s in
      lastHandPos s' = Some (mkPoint2 x y)
      /\ appliedDelta (mkHandData x y true) s s'
         = Some (x - px last, y - py last)).
Proof.
  repeat apply conj.
  - intros. unfold deltas, step. cbn [tk_hand tk_selected tk_delta].
    rewrite useFrame_idle, useFrame_grab, !useFrame_drag.
    unfold appliedDelta. cbn.
    repeat (apply f_equal2; [try reflexivity; apply some_pair_eq; lra|]).
    reflexivity.
  - intros. unfold s', s. rewrite useFrame_grab. unfold appliedDelta. cbn.
    repeat split. apply some_pair_eq; lra.
  - intros. unfold s', s. rewrite useFrame_drag. unfold appliedDelta. cbn.
    split; [reflexivity|]. apply some_pair_eq; lra.
Qed.

(** C8. A frame that carries the drag delta (deltaX, deltaY) adds
    deltaX * 10 to the yaw and deltaY * 10 to the pitch, whatever the angles
    are (nothing is clamped); a delta of (0.05, 0) adds exactly 0.5 to the
    yaw. *)
Theorem drag_rotates_without_clamping :
  (forall earth clouds last x y sel dt,
      let deltaX := x - px last in
      let deltaY := y - py last in
      earthRef (useFrame (mkHandData x y true) sel dt
                         (mkScene (Some earth) clouds (Some last)))
      = Some (mkEuler (rot_x earth + deltaY * 10)
                      (rot_y earth + deltaX * 10)
                      (rot_z earth)))
  /\ (forall earth clouds last sel dt,
      let s' := useFrame (mkHandData (px last + 0.05) (py last + 0) true) sel dt
                         (mkScene (Some earth) clouds (Some last)) in
      option_map rot_y (earthRef s') = Some (rot_y earth + 0.5)
      /\ option_map rot_x (earthRef s') = Some (rot_x earth)).
Proof.
  split; intros.
  - rewrite useFrame_drag. reflexivity.
  - unfold s'. rewrite useFrame_drag. cbn. split; apply f_equal; lra.
Qed.

(** C7. A frame without a drag delta (the hand is not active) adds
    [elapsed * 0.05] to the yaw when no location is pinned; with a location
    pinned it leaves yaw and pitch as they are; a frame that carries a drag
    delta turns the globe by it even while a location is pinned.  The
    callback does not look at the pointer device, so the first part holds
    whether or not a mouse drag is in progress. *)
Theorem idle_spin_only_when_unpinned :
  (forall earth clouds last x y dt,
      earthRef (useFrame (mkHandData x y false) None dt
                         (mkScene (Some earth) clouds last))
      = Some (mkEuler (rot_x earth) (rot_y earth + dt * 0.05) (rot_z earth)))
  /\ (forall earth clouds last x y loc dt,
      earthRef (useFrame (mkHandData x y false) (Some loc) dt
                         (mkScene (Some earth) clouds last))
      = Some earth)
  /\ (forall earth clouds last x y loc dt,
      earthRef (useFrame (mkHandData x y true) (Some loc) dt
                         (mkScene (Some earth) clouds (Some last)))
      = Some (mkEuler (rot_x earth + (y - py last) * 10)
                      (rot_y earth + (x - px last) * 10)
                      (rot_z earth))).
Proof.
  repeat apply conj; intros.
  - rewrite useFrame_idle. reflexivity.
  - rewrite useFrame_idle. reflexivity.
  - rewrite useFrame_drag. reflexivity.
Qed.

(** C9. A frame whose hand is not active (released, or no hand detected:
    the tracker then publishes [active = false]) clears the stored drag
    position and applies no delta: the globe gets the idle spin only, or
    nothing when a location is pinned, whatever the pointer and the stored
    position are.  The next active frame anchors at its own pointer position
    and leaves the rotation alone, and the frame after that turns the globe
    by the move from that new anchor: nothing of the position stored before
    the release is left. *)
Theorem release_clears_anchor :
  (forall earth clouds last x y sel dt,
      let s := mkScene (Some earth) clouds last in
      let s' := useFrame (mkHandData x y false) sel dt s in
      lastHandPos s' = None
      /\ earthRef s'
         = Some (match sel with
                 | None => mkEuler (rot_x earth) (rot_y earth + dt * 0.05)
                                   (rot_z earth)
                 | Some _ => earth
                 end)
      /\ appliedDelta (mkHandData x y false) s s' = None)
  /\ (forall f st earth clouds last sel dt,
      HandTracker.kind f st = HandTracker.NoHand ->
      let handData := HandTracker.handDataRef (HandTracker.predictWebcam f st) in
      let s := mkScene (Some earth) clouds last in
      lastHandPos (useFrame handData sel dt s) = None
      /\ earthRef (useFrame handData sel dt s)
         = Some (match sel with
                 | None => mkEuler (rot_x earth) (rot_y earth + dt * 0.05)
                                   (rot_z earth)
                 | Some _ => earth
                 end)
      /\ appliedDelta handData s (useFrame handData sel dt s) = None)
  /\ (forall earth clouds old x0 y0 x1 y1 x2 y2 sel0 sel1 sel2 dt0 dt1 dt2,
      let s := mkScene (Some earth) clouds (Some old) in
      let ts := [mkTick (mkHandData x0 y0 false) sel0 dt0;
                 mkTick (mkHandData x1 y1 true) sel1 dt1;
                 mkTick (mkHandData x2 y2 true) sel2 dt2] in
      let released :=
        match sel0 with
        | None => mkEuler (rot_x earth) (rot_y earth + dt0 * 0.05)
                          (rot_z earth)
        | Some _ => earth
        end in
      map lastHandPos (scenes s ts)
      = [None; Some (mkPoint2 x1 y1); Some (mkPoint2 x2 y2)]
      /\ map earthRef (scenes s ts)
         = [Some released; Some released;
            Some (mkEuler (rot_x released + (y2 - y1) * 10)
                          (rot_y released + (x2 - x1) * 10)
                          (rot_z released))]
      /\ deltas s ts = [None; Some (0, 0); Some (x2 - x1, y2 - y1)]).
Proof.
  split; [|split]; intros.
  - unfold s', s. rewrite useFrame_idle. repeat split.
  - unfold handData, s. rewrite (predictWebcam_nohand f st H).
    cbn [HandTracker.handDataRef]. rewrite useFrame_idle. repeat split.
  - unfold released, ts, s, scenes, deltas, step.
    cbn [tk_hand tk_selected tk_delta].
    rewrite useFrame_idle, useFrame_grab, useFrame_drag.
    split; [reflexivity|]. split; [reflexivity|].
    unfold appliedDelta. cbn.
    repeat (apply f_equal2; [try reflexivity; apply some_pair_eq; lra|]).
    reflexivity.
Qed.

Lemma release_clears_anchor_witness :
  let f := HandTracker.emptyFrame 0 in
  let handData :=
    HandTracker.handDataRef (HandTracker.predictWebcam f HandTracker.initial) in
  HandTracker.kind f HandTracker.initial = HandTracker.NoHand
  /\ lastHandPos (useFrame handData None 0.016
                    (mkScene (Some (mkEuler 0 0 0)) None
                             (Some (mkPoint2 0.5 0.5)))) = None.
Proof.
  intros f handData.
  assert (H : HandTracker.kind f HandTracker.initial = HandTracker.NoHand)
    by (apply kind_emptyFrame; simpl; lra).
  split; [exact H|].
  exact (proj1 (proj1 (proj2 release_clears_anchor)
                      f HandTracker.initial (mkEuler 0 0 0) None
                      (Some (mkPoint2 0.5 0.5)) None 0.016 H)).
Defined.

End HoloEarthFacts.

(** ** Picking and marker placement *)

Section GeoFacts.

Import HoloEarth.

Lemma atan2_origin : Js.atan2 0 0 = 0.
Proof.
  unfold Js.atan2.
  destruct (Rlt_dec 0 0) as [H|_]; [lra|]. reflexivity.
Qed.


(** A point given by radius, colatitude [phi] and azimuth [theta], as
    [markerPosition] builds it, is at distance [r] from the centre. *)
Lemma length_polar (r phi theta : R) :
  0 <= r ->
  length (mkVector3 (r * sin phi * sin theta) (r * cos phi)
                    (r * sin phi * cos theta)) = r.
Proof.
  intros Hr. unfold length. cbn [vx vy vz].
  pose proof (sin2_cos2 phi) as Hp. pose proof (sin2_cos2 theta) as Ht.
  unfold Rsqr in Hp, Ht.
  replace (r * sin phi * sin theta * (r * sin phi * sin theta)
           + r * cos phi * (r * cos phi)
           + r * sin phi * cos theta * (r * sin phi * cos theta))
    with (r * r * (sin phi * sin phi * (sin theta * sin theta
                                        + cos theta * cos theta)
                   + cos phi * cos phi)) by ring.
  rewrite Ht, Rmult_1_r, Hp, Rmult_1_r. apply sqrt_square, Hr.
Qed.


(** A vector of length zero is the zero vector, and [normalize] leaves it
    there. *)
Lemma length_zero (v : Vector3) :
  length v = 0 -> vx v = 0 /\ vy v = 0 /\ vz v = 0.
Proof.
  unfold length. intros H. apply sqrt_eq_0 in H; nra.
Qed.

Lemma normalize_zero (v : Vector3) :
  length v = 0 -> normalize v = mkVector3 0 0 0.
Proof.
  intros H. destruct (length_zero v H) as (Hx & Hy & Hz).
  unfold normalize. rewrite H. unfold Js.or_num.
  destruct (Req_dec_T 0 0) as [_|E]; [|lra].
  unfold divideScalar, multiplyScalar. rewrite Hx, Hy, Hz. f_equal; lra.
Qed.

Lemma geoOfLocal_zero (v : Vector3) : length v = 0 -> geoOfLocal v = (0, 0).
Proof.
  intros H. unfold geoOfLocal. rewrite (normalize_zero v H). cbn [vx vy vz].
  rewrite acos_0, atan2_origin. pose proof PI_neq0.
  f_equal; field; assumption.
Qed.






(** A pick on a mounted globe always reaches the callback. *)
Lemma handlePointerDown_mounted (worldToLocal : Euler -> Vector3 -> Vector3)
    (earth : Euler) (clouds : option Euler) (last : option Point2)
    (point : Vector3) :
  handlePointerDown worldToLocal (mkScene (Some earth) clouds last) point
  = Some (geoOfLocal (worldToLocal earth point)).
Proof. reflexivity. Qed.

(** C6, as the code has it.  A pick point of length zero is not detected and
    not discarded: [normalize] divides by [length() || 1], which leaves the
    zero vector in place, and the location-select callback is called with the
    coordinate (lat, lon) = (0, 0), a number pair and not NaN. *)
Theorem zero_pick_selects_origin (worldToLocal : Euler -> Vector3 -> Vector3)
    (s : Scene) (earth : Euler) (point : Vector3) :
  earthRef s = Some earth ->
  length (worldToLocal earth point) = 0 ->
  handlePointerDown worldToLocal s point = Some (0, 0).
Proof.
  intros He Hlen. unfold handlePointerDown. rewrite He.
  rewrite (geoOfLocal_zero _ Hlen). reflexivity.
Qed.

Lemma zero_pick_selects_origin_witness :
  handlePointerDown (fun _ v => v)
    (mkScene (Some (mkEuler 0 0 0)) None None) (mkVector3 0 0 0)
  = Some (0, 0).
Proof.
  apply (zero_pick_selects_origin (fun _ v => v) _ (mkEuler 0 0 0)).
  - reflexivity.
  - unfold length. cbn [vx vy vz].
    replace (0 * 0 + 0 * 0 + 0 * 0) with 0 by lra. apply sqrt_0.
Defined.

(** C6 as stated fails on the code: a pick exactly at the centre of a globe
    that has not been moved is of length zero, and the callback is still
    called. *)
Lemma zero_pick_is_emitted :
  let centre := mkVector3 0 0 0 in
  length centre = 0
  /\ handlePointerDown (fun _ v => v)
       (mkScene (Some (mkEuler 0 0 0)) None None) centre <> None.
Proof.
  intros centre.
  assert (Hlen : length centre = 0).
  { unfold length, centre. cbn [vx vy vz].
    replace (0 * 0 + 0 * 0 + 0 * 0) with 0 by lra. apply sqrt_0. }
  split; [exact Hlen|].
  rewrite handlePointerDown_mounted. discriminate.
Qed.

End GeoFacts.

(** ** More on the hand tracker *)

Section HandTrackerMore.

Import HandTracker.

Lemma neqb_same (a : R) : Js.neqb a a = false.
Proof.
  unfold Js.neqb. destruct (Req_dec_T a a) as [_|E]; [reflexivity|].
  exfalso; apply E; reflexivity.
Qed.

(** A frame whose video time is the one last seen is skipped. *)
Lemma kind_same_time (f : Frame) (s : State) :
  lastVideoTime s = currentTime f -> kind f s = Skipped.
Proof.
  intros H. unfold kind. rewrite H, neqb_same.
  destruct (videoReady f), (recognizerReady f); reflexivity.
Qed.

(** Every frame that is not skipped records its video time. *)
Lemma lastVideoTime_recorded (f : Frame) (s : State) :
  kind f s <> Skipped -> lastVideoTime (predictWebcam f s) = currentTime f.
Proof.
  intros H. destruct (kind f s) as [| | | |t i] eqn:Hk.
  - contradiction.
  - rewrite (predictWebcam_failed f s Hk). reflexivity.
  - rewrite (predictWebcam_nocontext f s Hk). reflexivity.
  - rewrite (predictWebcam_nohand f s Hk). reflexivity.
  - rewrite (predictWebcam_hand f s t i Hk). reflexivity.
Qed.

(** X1. Each video frame is processed at most once: calling [predictWebcam]
    again on the same frame (the animation loop runs faster than the
    camera) changes nothing, whatever the frame holds. *)
Theorem duplicate_frame_is_ignored (f : Frame) (s : State) :
  predictWebcam f (predictWebcam f s) = predictWebcam f s.
Proof.
  destruct (kind f s) as [| | | |t i] eqn:Hk.
  - rewrite (predictWebcam_skipped f s Hk). apply predictWebcam_skipped, Hk.
  - apply predictWebcam_skipped, kind_same_time, lastVideoTime_recorded.
    rewrite Hk; discriminate.
  - apply predictWebcam_skipped, kind_same_time, lastVideoTime_recorded.
    rewrite Hk; discriminate.
  - apply predictWebcam_skipped, kind_same_time, lastVideoTime_recorded.
    rewrite Hk; discriminate.
  - apply predictWebcam_skipped, kind_same_time, lastVideoTime_recorded.
    rewrite Hk; discriminate.
Qed.

Lemma published_step (f : Frame) (s : State) :
  published s -> published (predictWebcam f s).
Proof.
  intros Hs. destruct (kind f s) as [| | | |t i] eqn:Hk.
  - rewrite (predictWebcam_skipped f s Hk). exact Hs.
  - rewrite (predictWebcam_failed f s Hk). exact Hs.
  - rewrite (predictWebcam_nocontext f s Hk). exact Hs.
  - rewrite (predictWebcam_nohand f s Hk). exact Hs.
  - rewrite (predictWebcam_hand f s t i Hk). split; reflexivity.
Qed.

(** X2. Whatever frames arrive (hands, no hands, throwing detections,
    duplicates), the pointer published to the globe is always exactly the
    smoother's stored position: the two copies never drift apart. *)
Theorem published_pointer_is_smoother_state (fs : list Frame) :
  Forall published (states initial fs) /\ published (run initial fs).
Proof.
  assert (H0 : published initial) by (split; reflexivity).
  revert H0. generalize initial as s.
  induction fs as [|f fs IH]; intros s Hs.
  - split; [constructor | exact Hs].
  - pose proof (published_step f s Hs) as Hs'.
    destruct (IH _ Hs') as [IH1 IH2].
    split; [constructor; assumption | exact IH2].
Qed.

Lemma sqrt_lt_015 (a : R) : 0 <= a -> (sqrt a < 0.15 <-> a < 0.0225).
Proof.
  intros Ha.
  assert (E : sqrt 0.0225 = 0.15).
  { replace 0.0225 with (0.15 * 0.15) by lra. apply sqrt_square. lra. }
  split; intros H.
  - apply sqrt_lt_0_alt. rewrite E. exact H.
  - rewrite <- E. apply sqrt_lt_1_alt. lra.
Qed.

(** X3. The pinch test needs no square root and no depth: a detected hand is
    pinching exactly when the squared x,y distance between thumb tip and
    index fingertip is below 0.0225. *)
Theorem pinch_by_squared_distance (f : Frame) (s : State)
    (thumbTip indexTip : HandLandmark) :
  kind f s = Hand thumbTip indexTip ->
  hd_active (handDataRef (predictWebcam f s)) = true
  <-> (lm_x thumbTip - lm_x indexTip) ^ 2
      + (lm_y thumbTip - lm_y indexTip) ^ 2 < 0.0225.
Proof.
  intros Hk. rewrite (hand_frame_active f s _ _ Hk). unfold distance.
  apply sqrt_lt_015.
  pose proof (pow2_ge_0 (lm_x thumbTip - lm_x indexTip)).
  pose proof (pow2_ge_0 (lm_y thumbTip - lm_y indexTip)). lra.
Qed.

Lemma pinch_by_squared_distance_witness :
  hd_active (handDataRef (predictWebcam
     (handFrame 0 (mkLandmark 0.4 0.5 9) (mkLandmark 0.5 0.5 0)) initial))
  = true.
Proof.
  apply (pinch_by_squared_distance
           (handFrame 0 (mkLandmark 0.4 0.5 9) (mkLandmark 0.5 0.5 0)) initial
           (mkLandmark 0.4 0.5 9) (mkLandmark 0.5 0.5 0)).
  - apply kind_handFrame. simpl. lra.
  - simpl. lra.
Defined.

Lemma meterWidth_low (d : R) : d <= 0 -> meterWidth d = 100.
Proof.
  intros H. unfold meterWidth.
  rewrite Rmin_left by lra. apply Rmax_right. lra.
Qed.

Lemma meterWidth_mid (d : R) :
  0 <= d <= 0.3 -> meterWidth d = (1 - d / 0.3) * 100.
Proof.
  intros H. unfold meterWidth.
  rewrite Rmin_right by lra. apply Rmax_right. lra.
Qed.

Lemma meterWidth_high (d : R) : 0.3 <= d -> meterWidth d = 0.
Proof.
  intros H. unfold meterWidth.
  rewrite Rmin_right by lra. apply Rmax_left. lra.
Qed.

(** The three regimes of the meter. *)
Lemma meterWidth_cases (d : R) :
  (d <= 0 /\ meterWidth d = 100)
  \/ (0 <= d <= 0.3 /\ meterWidth d = (1 - d / 0.3) * 100)
  \/ (0.3 <= d /\ meterWidth d = 0).
Proof.
  destruct (Rle_dec d 0) as [H0|H0];
    [left; split; [lra | apply meterWidth_low; lra]|].
  destruct (Rle_dec d 0.3) as [H1|H1].
  - right; left. split; [lra | apply meterWidth_mid; lra].
  - right; right. split; [lra | apply meterWidth_high; lra].
Qed.

(** X4. The pinch strength meter is always between 0 and 100 percent, never
    grows with the distance, is full at distance 0 and empty from 0.3 on,
    and is above one half for every distance the classifier calls a
    pinch. *)
Theorem meter_width_range :
  (forall d, 0 <= meterWidth d <= 100)
  /\ (forall d1 d2, d1 <= d2 -> meterWidth d2 <= meterWidth d1)
  /\ (forall d, d <= 0 -> meterWidth d = 100)
  /\ (forall d, 0.3 <= d -> meterWidth d = 0)
  /\ (forall d, 0 <= d <= 0.3 -> meterWidth d = (1 - d / 0.3) * 100)
  /\ (forall d, d < 0.15 -> 50 < meterWidth d).
Proof.
  repeat apply conj.
  - intros d.
    destruct (meterWidth_cases d) as [[? ->]|[[? ->]|[? ->]]]; lra.
  - intros d1 d2 H.
    destruct (meterWidth_cases d1) as [[? ->]|[[? ->]|[? ->]]];
      destruct (meterWidth_cases d2) as [[? ->]|[[? ->]|[? ->]]]; lra.
  - apply meterWidth_low.
  - apply meterWidth_high.
  - apply meterWidth_mid.
  - intros d H.
    destruct (meterWidth_cases d) as [[? ->]|[[? ->]|[? ->]]]; lra.
Qed.

Lemma meter_width_range_witness :
  meterWidth 0.06 = (1 - 0.06 / 0.3) * 100 /\ 50 < meterWidth 0.06.
Proof.
  split.
  - apply (proj1 (proj2 (proj2 (proj2 (proj2 meter_width_range))))). lra.
  - apply (proj2 (proj2 (proj2 (proj2 (proj2 meter_width_range))))). lra.
Defined.

End HandTrackerMore.

(** ** More on the rotation controller *)

Section HoloEarthMore.

Import HoloEarth.

Lemma run_cons (s : Scene) (t : Tick) (ts : list Tick) :
  run s (t :: ts) = run (step s t) ts.
Proof. reflexivity. Qed.

(** One frame on a mounted globe: the globe stays mounted and keeps its
    roll, the clouds advance by [delta * 0.02]. *)
Lemma step_mounted (earth : Euler) (clouds : option Euler)
    (last : option Point2) (t : Tick) :
  exists earth' last',
    step (mkScene (Some earth) clouds last) t
    = mkScene (Some earth') (option_map (add_y (tk_delta t * 0.02)) clouds)
              last'
    /\ rot_z earth' = rot_z earth.
Proof.
  destruct t as [[x y [|]] sel dt]; unfold step; cbn [tk_hand tk_selected tk_delta].
  - destruct last as [p|].
    + rewrite useFrame_drag. eexists _, _. split; reflexivity.
    + rewrite useFrame_grab. eexists _, _. split; reflexivity.
  - rewrite useFrame_idle. eexists _, _. split; [reflexivity|].
    destruct sel; reflexivity.
Qed.

(** X5. Over any frames on a mounted globe, whatever the hand does and
    whether or not a location is pinned, the cloud layer's yaw advances by
    0.02 times the elapsed time; the clouds' pitch and roll and the globe's
    roll never change, and the globe stays mounted. *)
Theorem clouds_drift_at_constant_rate (ts : list Tick) :
  forall (earth clouds : Euler) (last : option Point2),
  let s' := run (mkScene (Some earth) (Some clouds) last) ts in
  exists earth' clouds',
    earthRef s' = Some earth' /\ cloudsRef s' = Some clouds'
    /\ rot_y clouds' = rot_y clouds + totalTime ts * 0.02
    /\ rot_x clouds' = rot_x clouds
    /\ rot_z clouds' = rot_z clouds
    /\ rot_z earth' = rot_z earth.
Proof.
  induction ts as [|t ts IH]; intros earth clouds last s'.
  - exists earth, clouds. unfold s'. simpl. repeat split; lra.
  - unfold s'. rewrite run_cons.
    destruct (step_mounted earth (Some clouds) last t)
      as (earth1 & last1 & -> & Hz).
    cbn [option_map].
    destruct (IH earth1 (add_y (tk_delta t * 0.02) clouds) last1)
      as (earth' & clouds' & He & Hc & Hy & Hx & Hz').
    exists earth', clouds'. cbn [totalTime]. simpl in Hy, Hx, Hz'.
    repeat split; trivial; lra.
Qed.

(** X6. Drag rotation telescopes: after a grab at [anchor], any number of
    frames with the hand still active turn the globe by ten times the
    pointer's net move, from the anchor to its last position, however it
    got there; bringing the hand back to the anchor restores the
    orientation. *)
Theorem drag_rotation_telescopes (ts : list Tick) :
  Forall (fun t => hd_active (tk_hand t) = true) ts ->
  forall (earth : Euler) (clouds : option Euler) (anchor : Point2),
  let s' := run (mkScene (Some earth) clouds (Some anchor)) ts in
  exists earth',
    earthRef s' = Some earth'
    /\ rot_y earth' = rot_y earth + (px (lastPointer anchor ts) - px anchor) * 10
    /\ rot_x earth' = rot_x earth + (py (lastPointer anchor ts) - py anchor) * 10
    /\ lastHandPos s' = Some (lastPointer anchor ts).
Proof.
  induction ts as [|t ts IH]; intros Hact earth clouds anchor s'.
  - exists earth. unfold s'. simpl. repeat split; lra.
  - inversion Hact as [|? ? Ht Hts]; subst.
    unfold s'. rewrite run_cons.
    destruct t as [[x y a] sel dt]. simpl in Ht. subst a.
    unfold step. cbn [tk_hand tk_selected tk_delta]. rewrite useFrame_drag.
    destruct (IH Hts (mkEuler (rot_x earth + (y - py anchor) * 10)
                              (rot_y earth + (x - px anchor) * 10)
                              (rot_z earth))
                 (option_map (add_y (dt * 0.02)) clouds) (mkPoint2 x y))
      as (earth' & He & Hy & Hx & Hl).
    exists earth'. cbn [lastPointer tk_hand hd_x hd_y].
    simpl in Hy, Hx. repeat split; trivial; lra.
Qed.

Lemma drag_rotation_telescopes_witness :
  exists earth',
    earthRef (run (mkScene (Some (mkEuler 0.1 0.2 0)) None
                           (Some (mkPoint2 0.5 0.5)))
                  [mkTick (mkHandData 0.7 0.4 true) None 0.016;
                   mkTick (mkHandData 0.5 0.5 true) None 0.016])
    = Some earth'
    /\ rot_y earth' = 0.2 /\ rot_x earth' = 0.1.
Proof.
  assert (Hact : Forall (fun t => hd_active (tk_hand t) = true)
                        [mkTick (mkHandData 0.7 0.4 true) None 0.016;
                         mkTick (mkHandData 0.5 0.5 true) None 0.016])
    by (repeat constructor).
  destruct (drag_rotation_telescopes _ Hact
              (mkEuler 0.1 0.2 0) None (mkPoint2 0.5 0.5))
    as (earth' & He & Hy & Hx & _).
  exists earth'. simpl in Hy, Hx. repeat split; trivial; lra.
Defined.

(** X7. While no hand is active: a globe with no location pinned spins by
    0.05 times the elapsed time and keeps its pitch; a globe with a location
    pinned on every frame does not move at all. *)
Theorem idle_run (ts : list Tick) :
  Forall (fun t => hd_active (tk_hand t) = false) ts ->
  forall (earth : Euler) (clouds : option Euler) (last : option Point2),
  let s' := run (mkScene (Some earth) clouds last) ts in
  (Forall (fun t => tk_selected t = None) ts ->
   option_map rot_y (earthRef s') = Some (rot_y earth + totalTime ts * 0.05)
   /\ option_map rot_x (earthRef s') = Some (rot_x earth))
  /\ (Forall (fun t => tk_selected t <> None) ts ->
      earthRef s' = Some earth).
Proof.
  induction ts as [|t ts IH]; intros Hidle earth clouds last s'.
  - unfold s'. simpl. split; intros _; [split|]; try reflexivity.
    apply f_equal. lra.
  - inversion Hidle as [|? ? Ht Hts]; subst.
    unfold s'. rewrite run_cons.
    destruct t as [[x y a] sel dt]. simpl in Ht. subst a.
    unfold step. cbn [tk_hand tk_selected tk_delta]. rewrite useFrame_idle.
    split; intros Hsel; inversion Hsel as [|? ? Hs Hsels]; subst;
      simpl in Hs.
    + subst sel.
      destruct (IH Hts (mkEuler (rot_x earth) (rot_y earth + dt * 0.05)
                                (rot_z earth))
                   (option_map (add_y (dt * 0.02)) clouds) None)
        as [IH1 _].
      destruct (IH1 Hsels) as [Hy Hx]. rewrite Hy, Hx.
      cbn [totalTime tk_delta rot_x rot_y].
      split; [apply f_equal; lra | reflexivity].
    + destruct sel as [loc|]; [|contradiction].
      destruct (IH Hts earth (option_map (add_y (dt * 0.02)) clouds) None)
        as [_ IH2].
      exact (IH2 Hsels).
Qed.

Lemma idle_run_witness :
  option_map rot_y
    (earthRef (run (mkScene (Some (mkEuler 0 1 0)) None None)
                   [mkTick (mkHandData 0.5 0.5 false) None 2;
                    mkTick (mkHandData 0.5 0.5 false) None 4]))
  = Some (1 + (2 + (4 + 0)) * 0.05).
Proof.
  assert (Hidle : Forall (fun t => hd_active (tk_hand t) = false)
                         [mkTick (mkHandData 0.5 0.5 false) None 2;
                          mkTick (mkHandData 0.5 0.5 false) None 4])
    by (repeat constructor).
  apply (proj1 (idle_run _ Hidle (mkEuler 0 1 0) None None)).
  repeat constructor.
Defined.

End HoloEarthMore.

(** ** More on picking and marker placement *)

Section GeoMore.

Import HoloEarth.

(** [Math.atan2] lands in (-PI, PI]. *)
Lemma atan2_bound (y x : R) : - PI < Js.atan2 y x <= PI.
Proof.
  pose proof PI_RGT_0 as Hpi. pose proof (atan_bound (y / x)) as Hb.
  unfold Js.atan2.
  destruct (Rlt_dec 0 x) as [Hx|Hx]; [lra|].
  destruct (Rlt_dec x 0) as [Hx'|Hx'].
  - assert (Hix : / x < 0) by (apply Rinv_lt_0_compat; exact Hx').
    destruct (Rle_dec 0 y) as [Hy|Hy].
    + assert (Ht : y / x <= 0) by (unfold Rdiv; nra).
      assert (atan (y / x) <= 0).
      { destruct Ht as [Ht|Ht].
        - left. rewrite <- atan_0. apply atan_increasing, Ht.
        - rewrite Ht, atan_0. lra. }
      lra.
    + assert (Ht : 0 < y / x) by (unfold Rdiv; nra).
      assert (0 < atan (y / x))
        by (rewrite <- atan_0; apply atan_increasing, Ht).
      lra.
  - destruct (Rlt_dec 0 y); [lra|]. destruct (Rlt_dec y 0); lra.
Qed.

(** Scaling a vector scales its length. *)
Lemma length_scaled (k : R) (v : Vector3) :
  0 <= k -> length (multiplyScalar k v) = k * length v.
Proof.
  intros Hk. unfold length, multiplyScalar. cbn [vx vy vz].
  replace (vx v * k * (vx v * k) + vy v * k * (vy v * k)
           + vz v * k * (vz v * k))
    with (k * k * (vx v * vx v + vy v * vy v + vz v * vz v)) by ring.
  rewrite sqrt_mult_alt by nra. rewrite sqrt_square by exact Hk. reflexivity.
Qed.

Lemma normalize_scaled (k : R) (v : Vector3) :
  0 < k -> normalize (multiplyScalar k v) = normalize v.
Proof.
  intros Hk. unfold normalize. rewrite length_scaled by lra.
  unfold Js.or_num.
  destruct (Req_dec_T (length v) 0) as [Hz|Hnz].
  - destruct (length_zero v Hz) as (Hx & Hy & Hzz).
    destruct (Req_dec_T (k * length v) 0) as [_|E]; [|rewrite Hz in E; lra].
    unfold divideScalar, multiplyScalar. cbn [vx vy vz].
    rewrite Hx, Hy, Hzz. f_equal; lra.
  - destruct (Req_dec_T (k * length v) 0) as [E|_].
    + exfalso. apply Rmult_integral in E. destruct E; [lra | contradiction].
    + unfold divideScalar, multiplyScalar. cbn [vx vy vz].
      f_equal; field; split; lra.
Qed.

(** X9. A pick depends only on the direction of the picked point: points
    on the surface sphere (radius 2), on the cloud layer (2.02) or on the
    glow (2.1) along one ray from the centre give the same coordinate. *)
Theorem pick_ignores_radius (k : R) (localPoint : Vector3) :
  0 < k ->
  geoOfLocal (multiplyScalar k localPoint) = geoOfLocal localPoint.
Proof.
  intros Hk. unfold geoOfLocal. rewrite (normalize_scaled k _ Hk). reflexivity.
Qed.

Lemma pick_ignores_radius_witness :
  geoOfLocal (multiplyScalar 1.01 (mkVector3 0 0 2))
  = geoOfLocal (mkVector3 0 0 2).
Proof.
  apply (pick_ignores_radius 1.01 (mkVector3 0 0 2)). lra.
Defined.

(** X10. The marker of any coordinate, in range or not, sits at distance
    2.02 from the centre: just above the surface sphere of radius 2. *)
Theorem marker_floats_above_surface (selectedLocation : LocationData) :
  length (markerPosition selectedLocation) = 2.02
  /\ 2 < length (markerPosition selectedLocation).
Proof.
  assert (H : length (markerPosition selectedLocation) = 2.02)
    by (unfold markerPosition; apply length_polar; lra).
  split; [exact H | rewrite H; lra].
Qed.

(** [Math.atan2(y, x)] is an angle of the point [(x, y)]: scaled by the
    point's distance from the origin, its sine and cosine give back [y]
    and [x]. *)
Lemma atan2_sin_cos (y x : R) :
  sqrt (x * x + y * y) * sin (Js.atan2 y x) = y
  /\ sqrt (x * x + y * y) * cos (Js.atan2 y x) = x.
Proof.
  assert (Hroot : forall a : R, a <> 0 ->
            sqrt (a * a + y * y) = Rabs a * sqrt (1 + (y / a)²)).
  { intros a Ha.
    replace (a * a + y * y) with (a * a * (1 + (y / a)²))
      by (unfold Rsqr; field; exact Ha).
    rewrite sqrt_mult_alt by nra.
    f_equal. rewrite <- sqrt_Rsqr_abs. reflexivity. }
  assert (Hpos : forall t : R, 0 < sqrt (1 + t²)).
  { intros t. apply sqrt_lt_R0. unfold Rsqr. nra. }
  unfold Js.atan2.
  destruct (Rlt_dec 0 x) as [Hx|Hx].
  - rewrite (Hroot x) by lra. rewrite Rabs_right by lra.
    rewrite sin_atan, cos_atan. pose proof (Hpos (y / x)).
    split; field; lra.
  - destruct (Rlt_dec x 0) as [Hx'|Hx'].
    + rewrite (Hroot x) by lra. rewrite Rabs_left by lra.
      pose proof (Hpos (y / x)).
      destruct (Rle_dec 0 y) as [Hy|Hy].
      * rewrite neg_sin, neg_cos, sin_atan, cos_atan. split; field; lra.
      * replace (atan (y / x) - PI) with (- (- atan (y / x) + PI)) by ring.
        rewrite sin_neg, cos_neg, neg_sin, neg_cos, sin_neg, cos_neg,
          sin_atan, cos_atan.
        split; field; lra.
    + assert (x = 0) by lra. subst x.
      replace (0 * 0 + y * y) with (y * y) by ring.
      destruct (Rlt_dec 0 y) as [Hy|Hy].
      * rewrite sqrt_square by lra. rewrite sin_PI2, cos_PI2. split; ring.
      * destruct (Rlt_dec y 0) as [Hy'|Hy'].
        -- replace (y * y) with (- y * - y) by ring.
           rewrite sqrt_square by lra.
           rewrite sin_neg, cos_neg, sin_PI2, cos_PI2. split; ring.
        -- assert (y = 0) by lra. subst y.
           rewrite Rmult_0_l, sqrt_0. split; ring.
Qed.

(** A normalised vector that was not zero is of length one. *)
Lemma normalize_unit (v : Vector3) :
  length v <> 0 ->
  let u := normalize v in
  vx u * vx u + vy u * vy u + vz u * vz u = 1.
Proof.
  intros Hl u. unfold u, normalize, Js.or_num.
  destruct (Req_dec_T (length v) 0) as [E|_]; [contradiction|].
  unfold divideScalar, multiplyScalar. cbn [vx vy vz].
  assert (Hs : length v * length v = vx v * vx v + vy v * vy v + vz v * vz v).
  { unfold length. apply sqrt_sqrt. nra. }
  replace (vx v * (1 / length v) * (vx v * (1 / length v))
           + vy v * (1 / length v) * (vy v * (1 / length v))
           + vz v * (1 / length v) * (vz v * (1 / length v)))
    with ((vx v * vx v + vy v * vy v + vz v * vz v)
          / (length v * length v)) by (field; exact Hl).
  rewrite <- Hs. field. exact Hl.
Qed.

(** After [normalize] the y coordinate is within [-1, 1], the domain of
    [Math.acos]: the zero vector stays zero and any other becomes a unit
    vector. *)
Lemma normalize_y_bound (v : Vector3) : -1 <= vy (normalize v) <= 1.
Proof.
  destruct (Req_dec_T (length v) 0) as [Hz|Hnz].
  - rewrite (normalize_zero v Hz). simpl. lra.
  - pose proof (normalize_unit v Hnz) as Hu. cbv zeta in Hu. split; nra.
Qed.

(** X8. Every pick, of any point whatever and zero included, is well
    defined and in range: the handler applies [Math.acos] to the normalised
    point's y, which lies in [-1, 1]; the latitude it emits is in [-90, 90]
    and is the angle whose sine is that y; the longitude is in
    (-180, 180]. *)
Theorem pick_is_in_range (localPoint : Vector3) :
  let picked := geoOfLocal localPoint in
  -1 <= vy (normalize localPoint) <= 1
  /\ -90 <= fst picked <= 90
  /\ sin (fst picked * PI / 180) = vy (normalize localPoint)
  /\ -180 < snd picked <= 180.
Proof.
  intros picked. unfold picked, geoOfLocal. cbn [fst snd].
  pose proof PI_RGT_0 as Hpi.
  pose proof (normalize_y_bound localPoint) as Hy.
  pose proof (acos_bound (vy (normalize localPoint))) as [Ha1 Ha2].
  pose proof (atan2_bound (vx (normalize localPoint))
                          (vz (normalize localPoint))) as [Hb1 Hb2].
  assert (Hinv : 0 < / PI) by (apply Rinv_0_lt_compat; exact Hpi).
  assert (E1 : acos (vy (normalize localPoint)) * 180 / PI
               = 180 * (acos (vy (normalize localPoint)) * / PI))
    by (unfold Rdiv; ring).
  assert (E2 : Js.atan2 (vx (normalize localPoint)) (vz (normalize localPoint))
               * 180 / PI
               = 180 * (Js.atan2 (vx (normalize localPoint))
                                 (vz (normalize localPoint)) * / PI))
    by (unfold Rdiv; ring).
  assert (PI * / PI = 1) by (apply Rinv_r; lra).
  split; [exact Hy|]. split; [|split].
  - rewrite E1. split; nra.
  - replace ((90 - acos (vy (normalize localPoint)) * 180 / PI) * PI / 180)
      with (PI / 2 - acos (vy (normalize localPoint))) by (field; lra).
    rewrite sin_shift. apply cos_acos. exact Hy.
  - rewrite E2. split; nra.
Qed.

(** X11. The marker appears where the user picked: for every pick point
    other than the centre, the marker placed at the picked coordinate is the
    pick point's direction at distance 2.02, poles included. *)
Theorem marker_lands_on_pick (localPoint : Vector3) :
  length localPoint <> 0 ->
  let picked := geoOfLocal localPoint in
  markerPosition (mkLocation (fst picked) (snd picked))
  = multiplyScalar 2.02 (normalize localPoint).
Proof.
  intros Hl picked. unfold picked, geoOfLocal, markerPosition.
  cbn [fst snd lat lon].
  pose proof (normalize_unit localPoint Hl) as Hu. cbv zeta in Hu.
  set (u := normalize localPoint) in *.
  pose proof PI_neq0 as Hpi.
  replace ((90 - (90 - acos (vy u) * 180 / PI)) * PI / 180)
    with (acos (vy u)) by (field; exact Hpi).
  replace (Js.atan2 (vx u) (vz u) * 180 / PI * PI / 180)
    with (Js.atan2 (vx u) (vz u)) by (field; exact Hpi).
  assert (Hy : -1 <= vy u <= 1) by (split; nra).
  rewrite cos_acos by exact Hy. rewrite sin_acos by exact Hy.
  replace (1 - (vy u)²) with (vz u * vz u + vx u * vx u)
    by (unfold Rsqr; lra).
  destruct (atan2_sin_cos (vx u) (vz u)) as [Hs Hc].
  unfold multiplyScalar. f_equal.
  - rewrite Rmult_assoc, Hs. ring.
  - ring.
  - rewrite Rmult_assoc, Hc. ring.
Qed.

Lemma marker_lands_on_pick_witness :
  markerPosition (mkLocation (fst (geoOfLocal (mkVector3 0 0 2)))
                             (snd (geoOfLocal (mkVector3 0 0 2))))
  = multiplyScalar 2.02 (normalize (mkVector3 0 0 2)).
Proof.
  apply (marker_lands_on_pick (mkVector3 0 0 2)).
  unfold length. cbn [vx vy vz].
  replace (0 * 0 + 0 * 0 + 2 * 2) with (2 * 2) by ring.
  rewrite sqrt_square by lra. lra.
Defined.

End GeoMore.

(** ** The fact service, the panel and the application state *)

Section ServiceFacts.

Import GeminiService.
Open Scope string_scope.

Lemma or_string_nonempty (a : option string) (b : string) :
  b <> "" -> or_string a b <> "".
Proof.
  intros Hb. destruct a as [[|c s]|]; simpl; try exact Hb. discriminate.
Qed.

(** X12. The service always answers with text to show: whether the remote
    call throws, returns no text or returns the empty string, the text of
    [fetchEarthData] and of [analyzeLocation] is never empty; a non-empty
    reply is passed through unchanged, and a failed call carries no
    sources. *)
Theorem service_text_is_never_empty :
  (forall category o, gr_text (fetchEarthData category o) <> ""
                      /\ gr_sources (fetchEarthData category o) = None)
  /\ (forall la lo o, gr_text (analyzeLocation la lo o) <> "")
  /\ (forall la lo, gr_sources (analyzeLocation la lo Rejects) = None)
  /\ (forall category la lo t chunks,
      t <> "" ->
      gr_text (fetchEarthData category (Resolves (mkResponse (Some t) chunks)))
      = t
      /\ gr_text (analyzeLocation la lo (Resolves (mkResponse (Some t) chunks)))
         = t).
Proof.
  repeat apply conj.
  - intros category [|r]; simpl; split; try reflexivity;
      [discriminate | apply or_string_nonempty; discriminate].
  - intros la lo [|r]; simpl;
      [discriminate | apply or_string_nonempty; discriminate].
  - reflexivity.
  - intros category la lo t chunks Ht.
    destruct t as [|c t]; [contradiction|]. split; reflexivity.
Qed.

Lemma service_text_is_never_empty_witness :
  gr_text (fetchEarthData OCEANOGRAPHY
             (Resolves (mkResponse (Some "Tides.") None))) = "Tides.".
Proof.
  apply (proj2 (proj2 (proj2 service_text_is_never_empty))
           OCEANOGRAPHY 0%R 0%R "Tides." None).
  discriminate.
Defined.

(** The sources kept from a list of grounding chunks. *)
Lemma dropNull_web (chunks : list Chunk) (src : Source) :
  In src (dropNull (map (fun chunk =>
                           match web chunk with
                           | Some w => Some (mkSource (uri w) (title w))
                           | None => None
                           end) chunks))
  <-> In (mkChunk (Some src)) chunks.
Proof.
  induction chunks as [|[[[u t]|]] chunks IH]; simpl.
  - tauto.
  - rewrite IH. destruct src as [u' t']. split; intros [H|H]; auto; left;
      congruence.
  - rewrite IH. split; [auto | intros [H|H]; [discriminate | exact H]].
Qed.

Lemma dropNull_length (chunks : list Chunk) :
  (List.length (dropNull (map (fun chunk =>
                            match web chunk with
                            | Some w => Some (mkSource (uri w) (title w))
                            | None => None
                            end) chunks))
   <= List.length chunks)%nat.
Proof.
  induction chunks as [|[[w|]] chunks IH]; simpl.
  - apply le_n.
  - apply le_n_S, IH.
  - apply le_S, IH.
Qed.

(** X13. The sources [analyzeLocation] returns are exactly the [web] entries
    of the grounding chunks: a source is listed if and only if some chunk
    carries it, chunks without a [web] entry are dropped (so there are at
    most as many sources as chunks), and a response without grounding
    chunks has no source list at all. *)
Theorem location_sources_are_web_chunks (la lo : R) (t : option string) :
  (forall chunks,
      exists srcs,
        gr_sources (analyzeLocation la lo (Resolves (mkResponse t (Some chunks))))
        = Some srcs
        /\ (forall src, In src srcs <-> In (mkChunk (Some src)) chunks)
        /\ (List.length srcs <= List.length chunks)%nat)
  /\ gr_sources (analyzeLocation la lo (Resolves (mkResponse t None))) = None.
Proof.
  split; [|reflexivity].
  intros chunks. eexists. split; [reflexivity|]. split.
  - intros src. apply dropNull_web.
  - apply dropNull_length.
Qed.

(** X14. After a location scan the panel shows its "Data Sources" block
    exactly when the reply carried at least one grounding chunk with a [web]
    entry; a link is labelled by its title, or by its address when the title
    is empty. *)
Theorem panel_shows_sources_iff_web_chunk :
  (forall la lo o,
      InfoPanel.showsSources false (gr_sources (analyzeLocation la lo o)) = true
      <-> exists t chunks src,
            o = Resolves (mkResponse t (Some chunks))
            /\ In (mkChunk (Some src)) chunks)
  /\ (forall src,
      (title src <> "" -> InfoPanel.sourceLabel src = title src)
      /\ (title src = "" -> InfoPanel.sourceLabel src = uri src)).
Proof.
  split.
  - intros la lo o. split.
    + destruct o as [|[t [chunks|]]]; simpl; try discriminate.
      destruct (dropNull _) as [|src srcs] eqn:E; [discriminate|].
      intros _. exists t, chunks, src. split; [reflexivity|].
      apply dropNull_web. rewrite E. left; reflexivity.
    + intros (t & chunks & src & -> & Hin). simpl.
      apply dropNull_web in Hin.
      destruct (dropNull _) as [|x xs]; [destruct Hin | reflexivity].
  - intros [u t]. unfold InfoPanel.sourceLabel. simpl. split.
    + destruct t; [contradiction | reflexivity].
    + intros ->. reflexivity.
Qed.

Lemma panel_shows_sources_iff_web_chunk_witness :
  InfoPanel.sourceLabel (mkSource "https://example.org" "") = "https://example.org".
Proof.
  apply (proj2 panel_shows_sources_iff_web_chunk
           (mkSource "https://example.org" "")).
  reflexivity.
Defined.

End ServiceFacts.

Section AppFacts.

Import GeminiService App.
Open Scope string_scope.

Lemma fetch_text_nonempty (c : EarthCategory) (o : Outcome) :
  gr_text (fetchEarthData c o) <> "".
Proof.
  destruct o as [|r]; simpl;
    [discriminate | apply or_string_nonempty; discriminate].
Qed.

Lemma analyze_text_nonempty (la lo : R) (o : Outcome) :
  gr_text (analyzeLocation la lo o) <> "".
Proof.
  destruct o as [|r]; simpl;
    [discriminate | apply or_string_nonempty; discriminate].
Qed.

(** X15. A request always completes on screen: whatever the service call
    does (a throw included), once its reply is handled the panel has left
    its loading state and shows non-empty text.  A menu click followed by
    its reply ends with the clicked category as title and nothing pinned; a
    pick followed by its reply ends with the title COORDINATE SCAN and the
    picked coordinate pinned. *)
Theorem request_completes_with_text (st : AppState) :
  (forall c o,
      let st' := run st [CategoryClick c; CategoryReply c o] in
      loading st' = false /\ fact st' <> ""
      /\ activeCategory st' = categoryValue c
      /\ selectedLocation st' = None)
  /\ (forall la lo o,
      let st' := run st [LocationPick la lo; LocationReply la lo o] in
      loading st' = false /\ fact st' <> ""
      /\ activeCategory st' = "COORDINATE SCAN"
      /\ selectedLocation st' = Some (mkLocation la lo))
  /\ (forall c o, loading (handle st (CategoryReply c o)) = false
                  /\ fact (handle st (CategoryReply c o)) <> "")
  /\ (forall la lo o, loading (handle st (LocationReply la lo o)) = false
                      /\ fact (handle st (LocationReply la lo o)) <> "").
Proof.
  repeat apply conj; intros; cbv zeta; simpl; repeat apply conj; trivial;
    try apply fetch_text_nonempty; try apply analyze_text_nonempty.
Qed.

(** X16. Replies are applied in the order they arrive, without a check that
    their request is still the current one: when a pick is followed by a
    menu click and the pick's reply arrives last, the panel is titled with
    the clicked category and nothing is pinned, but it shows the text and
    the sources of the location scan. *)
Theorem late_reply_overwrites_panel (st : AppState) (c : EarthCategory)
    (la lo : R) (oc ol : Outcome) :
  let st' := run st [LocationPick la lo; CategoryClick c;
                     CategoryReply c oc; LocationReply la lo ol] in
  activeCategory st' = categoryValue c
  /\ selectedLocation st' = None
  /\ loading st' = false
  /\ fact st' = gr_text (analyzeLocation la lo ol)
  /\ sources st' = gr_sources (analyzeLocation la lo ol).
Proof. repeat split. Qed.

End AppFacts.

Section PinFacts.

Import HoloEarth.

(** X17. Picking a point pins it and stops the idle spin; choosing a
    category unpins it and the spin resumes.  On a mounted globe a pick
    always reaches [handleLocationSelect]; with the coordinate it stores, a
    frame without an active hand leaves the globe's orientation alone; after
    a menu click the same frame adds [delta * 0.05] to the yaw again. *)
Theorem pick_pins_and_category_unpins
    (worldToLocal : Euler -> Vector3 -> Vector3)
    (earth : Euler) (clouds : option Euler) (last : option Point2)
    (point : Vector3) (st : App.AppState) (c : GeminiService.EarthCategory)
    (x y dt : R) :
  let scene := mkScene (Some earth) clouds last in
  exists la lo,
    handlePointerDown worldToLocal scene point = Some (la, lo)
    /\ let pinned := App.handleLocationSelect_start la lo st in
       App.selectedLocation pinned = Some (mkLocation la lo)
       /\ earthRef (useFrame (mkHandData x y false)
                             (App.selectedLocation pinned) dt scene)
          = Some earth
       /\ let unpinned := App.handleCategorySelect_start c pinned in
          earthRef (useFrame (mkHandData x y false)
                             (App.selectedLocation unpinned) dt scene)
          = Some (mkEuler (rot_x earth) (rot_y earth + dt * 0.05)
                          (rot_z earth)).
Proof.
  intros scene.
  exists (fst (geoOfLocal (worldToLocal earth point))),
         (snd (geoOfLocal (worldToLocal earth point))).
  split.
  - unfold scene. rewrite handlePointerDown_mounted.
    rewrite <- surjective_pairing. reflexivity.
  - cbn zeta. unfold scene. cbn [App.handleLocationSelect_start
      App.handleCategorySelect_start App.selectedLocation].
    rewrite !useFrame_idle. repeat split.
Qed.

End PinFacts.

Section PointerSpeed.

Import HandTracker.

(** X18. The published pointer is rate limited: when it is the smoother's
    state (as it is after any frames from the initial refs) and it and the
    index fingertip lie in the unit square, one frame with a hand moves each
    of its coordinates by 0.2 times the distance to the raw position, hence
    by at most 0.2. *)
Theorem pointer_moves_at_most_a_fifth (f : Frame) (s : State)
    (thumbTip indexTip : HandLandmark) :
  kind f s = Hand thumbTip indexTip ->
  published s ->
  pointerInUnitSquare s ->
  inUnitSquare (lm_x indexTip) (lm_y indexTip) ->
  let s' := predictWebcam f s in
  Rabs (hd_x (handDataRef s') - hd_x (handDataRef s)) <= 0.2
  /\ Rabs (hd_y (handDataRef s') - hd_y (handDataRef s)) <= 0.2
  /\ Rabs (hd_x (handDataRef s') - hd_x (handDataRef s))
     = 0.2 * Rabs (1 - lm_x indexTip - hd_x (handDataRef s))
  /\ Rabs (hd_y (handDataRef s') - hd_y (handDataRef s))
     = 0.2 * Rabs (lm_y indexTip - hd_y (handDataRef s)).
Proof.
  intros Hk [Hpx Hpy] [_ [Hx Hy]] [Hix Hiy] s'. unfold s'.
  rewrite (predictWebcam_hand f s _ _ Hk). cbn [handDataRef hd_x hd_y].
  rewrite <- Hpx, <- Hpy.
  assert (Ex : hd_x (handDataRef s)
               + (1 - lm_x indexTip - hd_x (handDataRef s)) * 0.2
               - hd_x (handDataRef s)
               = 0.2 * (1 - lm_x indexTip - hd_x (handDataRef s))) by ring.
  assert (Ey : hd_y (handDataRef s)
               + (lm_y indexTip - hd_y (handDataRef s)) * 0.2
               - hd_y (handDataRef s)
               = 0.2 * (lm_y indexTip - hd_y (handDataRef s))) by ring.
  rewrite Ex, Ey, !Rabs_mult, (Rabs_right 0.2) by lra.
  assert (Rabs (1 - lm_x indexTip - hd_x (handDataRef s)) <= 1)
    by (apply Rabs_le; lra).
  assert (Rabs (lm_y indexTip - hd_y (handDataRef s)) <= 1)
    by (apply Rabs_le; lra).
  repeat split; lra.
Qed.

Lemma pointer_moves_at_most_a_fifth_witness :
  Rabs (hd_x (handDataRef (predictWebcam
          (handFrame 0 (mkLandmark 0.5 0.5 0) (mkLandmark 0 1 0)) initial))
        - 0.5) <= 0.2.
Proof.
  apply (pointer_moves_at_most_a_fifth
           (handFrame 0 (mkLandmark 0.5 0.5 0) (mkLandmark 0 1 0)) initial
           (mkLandmark 0.5 0.5 0) (mkLandmark 0 1 0)).
  - apply kind_handFrame. simpl. lra.
  - split; reflexivity.
  - exact initial_in_unit_square.
  - unfold inUnitSquare. simpl. lra.
Defined.

End PointerSpeed.
